(** * pyradi: Planck-law exitance (ryplanck.py) and CIE chromaticity (chroma.py)

    A shallow embedding of the two modules and the properties proved of
    them.

    The numeric code is written once, over an arithmetic interface [Arith]
    holding the operations the Python source applies to its float64 values
    ([+ - * / **], [numpy.exp], [<]).  The interface has two instances:

    - [Arith_R], the real numbers: exact arithmetic, on which the closed
      formulas are stated.  A float64 run agrees with it up to rounding as
      long as nothing overflows, underflows or cancels; the real-number
      theorems keep to inputs where that is so;
    - [Arith_float], IEEE-754 binary64 (Rocq's primitive floats), on which
      the behaviour at overflow, NaN and infinity is stated.  [numpy.exp]
      and the C [pow] behind [**] are not part of IEEE-754 arithmetic: the
      instance takes them as arguments.

    Integer inputs are kept apart from float inputs: numpy holds them in
    int64 arrays, whose products and powers wrap around.

    Arrays are [ndarray] records (shape, elements in C order).  Functions
    that can raise, or that call [numpy.exp], run in the monad [M], which
    carries the Python exception raised, if any, and the list of arrays
    handed to [numpy.exp]. *)

From Stdlib Require Import String.
From Stdlib Require Import List ZArith Bool Lia Arith.
From Stdlib Require Import Reals Lra Floats.
Import ListNotations.

Set Implicit Arguments.

(* ================================================================== *)
(** * The arithmetic interface *)

Class Arith (F : Type) : Type := {
  fadd : F -> F -> F;
  fsub : F -> F -> F;
  fmul : F -> F -> F;
  fdiv : F -> F -> F;
  fneg : F -> F;
  (** [x ** n] for an integer literal [n] *)
  fpow : F -> nat -> F;
  (** [numpy.exp] on one element *)
  fexp : F -> F;
  (** [x < y] *)
  fltb : F -> F -> bool;
  (** an integer literal used where a float is expected *)
  fromZ : Z -> F;
  (** the literal [709.7] *)
  lit_explimit : F;
  (** the literal [1.2020569031595942853] *)
  lit_zeta3 : F;
  (** an int64 value converted to float64, as numpy does where an integer
      array meets a float *)
  of_int64 : Z -> F;
  (** whether Python's [x ** n] on a float raises [OverflowError] (the
      result is out of range); numpy's [**] on an array never raises *)
  fpow_overflows : F -> nat -> bool;
  (** [a.sum()] of an array that is not empty; numpy chooses the order of
      the additions *)
  fsum : list F -> F
}.

Declare Scope arith_scope.
Delimit Scope arith_scope with ar.
Infix "+" := fadd : arith_scope.
Infix "-" := fsub : arith_scope.
Infix "*" := fmul : arith_scope.
Infix "/" := fdiv : arith_scope.
Infix "**" := fpow (at level 30, right associativity) : arith_scope.
Infix "<?" := fltb : arith_scope.

(* ================================================================== *)
(** * Python values, exceptions and the evaluation monad *)

(** The exceptions the modelled code can raise. *)
Inductive exn : Type :=
| ValueError
| IndexError
| AttributeError
| KeyError
| OverflowError.

(** A numpy array: its shape and its elements in C (row-major) order. *)
Record ndarray (F : Type) : Type := mk_ndarray {
  shape : list nat;
  data : list F
}.

(** What the functions take and return, as far as floats go: a Python
    float, a flat Python list of floats, or a float64 array.  A numpy scalar
    given as an input is the array of rank 0 holding it (it has a [shape],
    the empty one).  A returned [PyFloat] is the [numpy.float64] that
    indexing an array gives. *)
Inductive pyobj (F : Type) : Type :=
| PyFloat (x : F)
| PyList (xs : list F)
| NdArray (a : ndarray F).

Arguments PyFloat {F} x.
Arguments PyList {F} xs.
Arguments NdArray {F} a.

(** An element of an array: numpy keeps integers in int64 arrays and
    everything else here in float64 arrays. *)
Inductive num (F : Type) : Type :=
| NInt (z : Z)
| NFloat (x : F).

Arguments NInt {F} z.
Arguments NFloat {F} x.

(** An input of the evaluators: one of the float values above, or a Python
    int, a list of Python ints, or an int64 array (integers within the
    int64 range; a list that mixes ints and floats is the list of floats
    numpy makes of it). *)
Inductive input (F : Type) : Type :=
| Floats (v : pyobj F)
| PyInt (z : Z)
| PyIntList (zs : list Z)
| IntArray (a : ndarray Z).

Arguments Floats {F} v.
Arguments PyInt {F} z.
Arguments PyIntList {F} zs.
Arguments IntArray {F} a.

Coercion Floats : pyobj >-> input.

(** A computation: the arrays passed to [numpy.exp] so far, in call order,
    and either the exception raised or the value. *)
Definition M (F A : Type) : Type := (list (list F) * (exn + A))%type.

Definition ret {F A} (a : A) : M F A := ([], inr a).
Definition raise {F A} (e : exn) : M F A := ([], inl e).
Definition bind {F A B} (m : M F A) (f : A -> M F B) : M F B :=
  match m with
  | (l, inl e) => (l, inl e)
  | (l, inr a) => let (l', r) := f a in (l ++ l', r)
  end.

Declare Scope monad_scope.
Delimit Scope monad_scope with monad.
Notation "x <- m ;; k" := (bind m (fun x => k))
  (at level 61, m at next level, right associativity) : monad_scope.
Open Scope monad_scope.

(** The arrays [numpy.exp] was called on. *)
Definition exp_calls {F A} (m : M F A) : list (list F) := fst m.
(** The outcome: an exception or the returned value. *)
Definition outcome {F A} (m : M F A) : exn + A := snd m.

(* ================================================================== *)
(** * The numpy operations the two modules use *)

Section Numpy.
Context {F : Type} {AF : Arith F}.

Definition prod_shape (s : list nat) : nat := fold_right Nat.mul 1%nat s.

(** [a.size] *)
Definition size (a : ndarray F) : nat := length (data a).

(** An array is well formed when it holds as many elements as its shape
    says. *)
Definition wf_ndarray (a : ndarray F) : Prop :=
  length (data a) = prod_shape (shape a).

(** [numpy.array(v, copy=False, ndmin=1)] *)
Definition np_array_ndmin1 (v : pyobj F) : ndarray F :=
  match v with
  | PyFloat x => mk_ndarray [1%nat] [x]
  | PyList xs => mk_ndarray [length xs] xs
  | NdArray a =>
      match shape a with
      | [] => mk_ndarray [1%nat] (data a)
      | _ => a
      end
  end.

(** The same array with each element rewritten *)
Definition amap {A B : Type} (f : A -> B) (a : ndarray A) : ndarray B :=
  mk_ndarray (shape a) (map f (data a)).

(** [numpy.array(v, copy=False, ndmin=1)] with the dtype numpy gives it:
    int64 for a Python int, a list of ints and an integer array, float64
    for the rest. *)
Definition np_array (v : input F) : ndarray (num F) :=
  match v with
  | Floats o => amap NFloat (np_array_ndmin1 o)
  | PyInt z => mk_ndarray [1%nat] [NInt z]
  | PyIntList zs => mk_ndarray [length zs] (map NInt zs)
  | IntArray a =>
      match shape a with
      | [] => mk_ndarray [1%nat] (map NInt (data a))
      | _ => amap NInt a
      end
  end.

(** [a.shape[0]], for an array of rank at least one *)
Definition shape0 (a : ndarray F) : nat := hd 0%nat (shape a).

(** [numpy.meshgrid(x, y)]: both arguments are ravelled; the two grids have
    [y.size] rows and [x.size] columns, the first repeating [x] along the
    rows, the second repeating each element of [y] along its row. *)
Definition meshgrid (x y : ndarray F) : ndarray F * ndarray F :=
  let nrows := size y in
  let ncols := size x in
  (mk_ndarray [nrows; ncols] (concat (repeat (data x) nrows)),
   mk_ndarray [nrows; ncols] (flat_map (fun t => repeat t ncols) (data y))).

(** [numpy.ravel(a)]: the elements in C order, as a rank-1 array (kept as
    the list of its elements). *)
Definition ravel (a : ndarray F) : list F := data a.

(** Element-wise binary operation on two flat arrays of one length. *)
Fixpoint map2 {A B C} (f : A -> B -> C) (l : list A) (l' : list B) : list C :=
  match l, l' with
  | a :: t, b :: t' => f a b :: map2 f t t'
  | _, _ => []
  end.

(** [numpy.where(cond, a, c)] with an array [a] and a scalar [c] *)
Definition where_ (cond : list bool) (a : list F) (c : F) : list F :=
  map2 (fun (b : bool) x => if b then x else c) cond a.

(** [numpy.exp(a)]: element-wise, and recorded as one call *)
Definition np_exp (a : list F) : M F (list F) := ([a], inr (map fexp a)).

(** [a.reshape(n,)] on a flat array *)
Definition reshape1 (a : list F) (n : nat) : M F (ndarray F) :=
  if Nat.eqb (length a) n then ret (mk_ndarray [n] a) else raise ValueError.

(** [a.reshape(n, -1)] on a flat array: the second dimension is inferred,
    which fails when [n] is zero or does not divide the size. *)
Definition reshape2 (a : list F) (n : nat) : M F (ndarray F) :=
  if Nat.eqb n 0 then raise ValueError
  else if Nat.eqb (length a mod n) 0
       then ret (mk_ndarray [n; length a / n] a)
       else raise ValueError.

(** [a.T]: for a rank-2 array of shape (r, c) the array of shape (c, r)
    whose element (i, j) is element (j, i) of [a]; an array of lower rank is
    its own transpose.  (The code transposes rank-2 arrays only.) *)
Definition transpose (a : ndarray F) : ndarray F :=
  match shape a with
  | [r; c] =>
      mk_ndarray [c; r]
        (flat_map (fun i => map (fun j => nth (j * c + i) (data a) (fromZ 0))
                                (seq 0 r))
                  (seq 0 c))
  | _ => a
  end.

(** [a[0]] on a flat array *)
Definition getitem0 (a : list F) : M F F :=
  match a with
  | x :: _ => ret x
  | [] => raise IndexError
  end.

(** [numpy.ones(shape)] *)
Definition np_ones (s : list nat) : ndarray F :=
  mk_ndarray s (repeat (fromZ 1) (prod_shape s)).

(** Unary minus on an array *)
Definition np_neg (a : ndarray F) : ndarray F :=
  mk_ndarray (shape a) (map fneg (data a)).

(** [v.shape]: arrays have the attribute; Python floats, ints and lists
    do not. *)
Definition get_shape (v : input F) : M F (list nat) :=
  match v with
  | Floats (NdArray a) => ret (shape a)
  | IntArray a => ret (shape a)
  | _ => raise AttributeError
  end.

End Numpy.

(* ================================================================== *)
(** * ryplanck.py *)

(** The values the module reads from [scipy.constants] ([h], [c], [k],
    [sigma]) and [numpy.pi].  They belong to those libraries, not to this
    repository, and are taken as given. *)
Record SciConst (F : Type) : Type := mk_SciConst {
  const_h : F;
  const_c : F;
  const_k : F;
  const_sigma : F;
  const_pi : F
}.

(** The attributes of a [PlanckConstants] object that the evaluators and
    [stefanboltzman] read.  (The roots [a2..a5] found by
    [scipy.optimize.brentq], and the Wien constants computed from them, are
    only printed; they are kept apart, in [wien_constants] below.) *)
Record PlanckConstants (F : Type) : Type := mk_PlanckConstants {
  c1em : F; c1el : F; c1en : F; c1ef : F;
  c1qm : F; c1ql : F; c1qn : F; c1nf : F;
  c2m : F; c2l : F; c2n : F; c2f : F;
  sigmae : F; zeta3 : F; sigmaq : F
}.

Section Ryplanck.
Context {F : Type} {AF : Arith F}.
Variable sc : SciConst F.
Local Open Scope arith_scope.

(** [explimit = 709.7] *)
Definition explimit : F := lit_explimit.

(** [PlanckConstants.__init__] *)
Definition PlanckConstants_init : PlanckConstants F :=
  let pi := const_pi sc in
  let h := const_h sc in
  let c := const_c sc in
  let k := const_k sc in
  let c1em := fromZ 2 * pi * h * c * c in
  let c1el := c1em * (fromZ 1000000) ** (5 - 1) in
  let c1en := c1em * fromZ (100 ^ 3) * fromZ 100 in
  let c1ef := fromZ 2 * pi * h / (c * c) in
  let c1qm := fromZ 2 * pi * c in
  let c1ql := c1qm * (fromZ 1000000) ** (4 - 1) in
  let c1qn := c1qm * fromZ (100 ^ 2) * fromZ 100 in
  let c1nf := fromZ 2 * pi / (c * c) in
  let c2m := h * c / k in
  let c2l := c2m * fromZ 1000000 in
  let c2n := c2m * fromZ 100 in
  let c2f := h / k in
  let sigmae := const_sigma sc in
  let zeta3 := lit_zeta3 in
  let sigmaq := fromZ 4 * pi * zeta3 * k ** 3 / (h ** 3 * c ** 2) in
  mk_PlanckConstants c1em c1el c1en c1ef c1qm c1ql c1qn c1nf
                     c2m c2l c2n c2f sigmae zeta3 sigmaq.

(** [pconst = PlanckConstants()] *)
Definition pconst : PlanckConstants F := PlanckConstants_init.

(** ** Element-wise arithmetic on flat arrays *)

(** array [*] array, array [/] array *)
Definition amul (a b : list F) : list F := map2 fmul a b.
Definition adiv (a b : list F) : list F := map2 fdiv a b.
(** scalar [*] array, scalar [/] array *)
Definition smul (c : F) (a : list F) : list F := map (fmul c) a.
Definition sdiv (c : F) (a : list F) : list F := map (fdiv c) a.
(** array [-] scalar, array [<] scalar *)
Definition asubs (a : list F) (c : F) : list F := map (fun x => x - c) a.
Definition alts (a : list F) (c : F) : list bool := map (fun x => x <? c) a.

(** ** Arrays that may hold integers

    The two grids keep the dtype of the inputs.  Where an int64 array meets
    a float, numpy converts its elements to float64; where it meets an
    integer, the result is an int64 array again and wraps around. *)

(** The element as a float64 *)
Definition as_float (v : num F) : F :=
  match v with
  | NInt z => of_int64 z
  | NFloat x => x
  end.

(** The conversion of an array to float64 *)
Definition floats (a : list (num F)) : list F := map as_float a.

(** The int64 value of an integer: two's complement, modulo [2^64] *)
Definition wrap64 (z : Z) : Z := ((z + 2 ^ 63) mod 2 ^ 64 - 2 ^ 63)%Z.

(** [u * v] and [u ** n] on one element *)
Definition nmul (u v : num F) : num F :=
  match u, v with
  | NInt a, NInt b => NInt (wrap64 (a * b))
  | _, _ => NFloat (as_float u * as_float v)
  end.
Definition npow (u : num F) (n : nat) : num F :=
  match u with
  | NInt a => NInt (wrap64 (a ^ Z.of_nat n))
  | NFloat x => NFloat (x ** n)
  end.

(** array [*] array and array [**] n on the grids *)
Definition vmul (a b : list (num F)) : list (num F) := map2 nmul a b.
Definition vpow (a : list (num F)) (n : nat) : list (num F) :=
  map (fun u => npow u n) a.

(** The block that ends each of the twelve evaluators: the flat array is
    given the shape the two inputs call for. *)
Definition unflatten {A B : Type} (tempIn : ndarray A) (specIn : ndarray B)
           (planckA : list F) : M F (pyobj F) :=
  if Nat.eqb (shape0 tempIn) 1 && Nat.eqb (shape0 specIn) 1 then
    x <- getitem0 planckA ;; ret (PyFloat x)
  else if Nat.eqb (shape0 tempIn) 1 && negb (Nat.eqb (shape0 specIn) 1) then
    a <- reshape1 planckA (shape0 specIn) ;; ret (NdArray a)
  else if negb (Nat.eqb (shape0 tempIn) 1) && Nat.eqb (shape0 specIn) 1 then
    a <- reshape2 planckA (shape0 specIn) ;; ret (NdArray a)
  else
    a <- reshape2 planckA (shape0 tempIn) ;; ret (NdArray (transpose a)).

(** ** The six exitance functions *)

Definition planckef (frequency temperature : input F) : M F (pyobj F) :=
  let tempIn := np_array temperature in
  let specIn := np_array frequency in
  let '(specgrid, tempgrid) := meshgrid specIn tempIn in
  let spec := ravel specgrid in
  let temp := ravel tempgrid in
  let exP := adiv (smul (c2f pconst) (floats spec)) (floats temp) in
  let exP2 := where_ (alts exP explimit) exP (fromZ 1) in
  e <- np_exp exP2 ;;
  let p := adiv (smul (c1ef pconst) (floats (vpow spec 3)))
                (asubs e (fromZ 1)) in
  let planckA := where_ (alts exP explimit) p (fromZ 0) in
  unflatten tempIn specIn planckA.

Definition planckel (wavelength temperature : input F) : M F (pyobj F) :=
  let tempIn := np_array temperature in
  let specIn := np_array wavelength in
  let '(specgrid, tempgrid) := meshgrid specIn tempIn in
  let spec := ravel specgrid in
  let temp := ravel tempgrid in
  let exP := sdiv (c2l pconst) (floats (vmul spec temp)) in
  let exP2 := where_ (alts exP explimit) exP (fromZ 1) in
  e <- np_exp exP2 ;;
  let p := adiv (sdiv (c1el pconst) (asubs e (fromZ 1)))
                (floats (vpow spec 5)) in
  let planckA := where_ (alts exP explimit) p (fromZ 0) in
  unflatten tempIn specIn planckA.

(** In [plancken] the clamped exponent [exP2] is computed and then not
    used: [numpy.exp] is applied to [exP].  ([spec / temp] is a true
    division, also between integers: the module imports [division] from
    [__future__].) *)
Definition plancken (wavenumber temperature : input F) : M F (pyobj F) :=
  let tempIn := np_array temperature in
  let specIn := np_array wavenumber in
  let '(specgrid, tempgrid) := meshgrid specIn tempIn in
  let spec := ravel specgrid in
  let temp := ravel tempgrid in
  let exP := smul (c2n pconst) (adiv (floats spec) (floats temp)) in
  let exP2 := where_ (alts exP explimit) exP (fromZ 1) in
  e <- np_exp exP ;;
  let p := adiv (smul (c1en pconst) (floats (vpow spec 3)))
                (asubs e (fromZ 1)) in
  let planckA := where_ (alts exP explimit) p (fromZ 0) in
  unflatten tempIn specIn planckA.

Definition planckqf (frequency temperature : input F) : M F (pyobj F) :=
  let tempIn := np_array temperature in
  let specIn := np_array frequency in
  let '(specgrid, tempgrid) := meshgrid specIn tempIn in
  let spec := ravel specgrid in
  let temp := ravel tempgrid in
  let exP := adiv (smul (c2f pconst) (floats spec)) (floats temp) in
  let exP2 := where_ (alts exP explimit) exP (fromZ 1) in
  e <- np_exp exP2 ;;
  let p := adiv (smul (c1nf pconst) (floats (vpow spec 2)))
                (asubs e (fromZ 1)) in
  let planckA := where_ (alts exP explimit) p (fromZ 0) in
  unflatten tempIn specIn planckA.

Definition planckql (wavelength temperature : input F) : M F (pyobj F) :=
  let tempIn := np_array temperature in
  let specIn := np_array wavelength in
  let '(specgrid, tempgrid) := meshgrid specIn tempIn in
  let spec := ravel specgrid in
  let temp := ravel tempgrid in
  let exP := sdiv (c2l pconst) (floats (vmul spec temp)) in
  let exP2 := where_ (alts exP explimit) exP (fromZ 1) in
  e <- np_exp exP2 ;;
  let p := adiv (sdiv (c1ql pconst) (asubs e (fromZ 1)))
                (floats (vpow spec 4)) in
  let planckA := where_ (alts exP explimit) p (fromZ 0) in
  unflatten tempIn specIn planckA.

Definition planckqn (wavenumber temperature : input F) : M F (pyobj F) :=
  let tempIn := np_array temperature in
  let specIn := np_array wavenumber in
  let '(specgrid, tempgrid) := meshgrid specIn tempIn in
  let spec := ravel specgrid in
  let temp := ravel tempgrid in
  let exP := adiv (smul (c2n pconst) (floats spec)) (floats temp) in
  let exP2 := where_ (alts exP explimit) exP (fromZ 1) in
  e <- np_exp exP2 ;;
  let p := adiv (smul (c1qn pconst) (floats (vpow spec 2)))
                (asubs e (fromZ 1)) in
  let planckA := where_ (alts exP explimit) p (fromZ 0) in
  unflatten tempIn specIn planckA.

(** ** The six temperature derivatives

    None of them tests the exponent against [explimit]: [numpy.exp] is
    applied to the exponent as computed. *)

Definition dplnckef (frequency temperature : input F) : M F (pyobj F) :=
  let tempIn := np_array temperature in
  let specIn := np_array frequency in
  let '(specgrid, tempgrid) := meshgrid specIn tempIn in
  let spec := ravel specgrid in
  let temp := ravel tempgrid in
  let xx := adiv (smul (c2f pconst) (floats spec)) (floats temp) in
  e1 <- np_exp xx ;;
  e2 <- np_exp xx ;;
  let f := adiv (amul xx e1) (amul (floats temp) (asubs e2 (fromZ 1))) in
  e3 <- np_exp (adiv (smul (c2f pconst) (floats spec)) (floats temp)) ;;
  let y := adiv (smul (c1ef pconst) (floats (vpow spec 3)))
                (asubs e3 (fromZ 1)) in
  let dplanckA := amul f y in
  unflatten tempIn specIn dplanckA.

Definition dplnckel (wavelength temperature : input F) : M F (pyobj F) :=
  let tempIn := np_array temperature in
  let specIn := np_array wavelength in
  let '(specgrid, tempgrid) := meshgrid specIn tempIn in
  let spec := ravel specgrid in
  let temp := ravel tempgrid in
  let xx := sdiv (c2l pconst) (floats (vmul spec temp)) in
  e1 <- np_exp xx ;;
  e2 <- np_exp xx ;;
  e3 <- np_exp xx ;;
  let dplanckA :=
    adiv (adiv (amul (smul (c1el pconst) xx) e1) (asubs e2 (fromZ 1)))
         (amul (floats (vmul temp (vpow spec 5))) (asubs e3 (fromZ 1))) in
  unflatten tempIn specIn dplanckA.

Definition dplncken (wavenumber temperature : input F) : M F (pyobj F) :=
  let tempIn := np_array temperature in
  let specIn := np_array wavenumber in
  let '(specgrid, tempgrid) := meshgrid specIn tempIn in
  let spec := ravel specgrid in
  let temp := ravel tempgrid in
  let xx := adiv (smul (c2n pconst) (floats spec)) (floats temp) in
  e1 <- np_exp xx ;;
  e2 <- np_exp xx ;;
  let f := adiv (amul xx e1) (amul (floats temp) (asubs e2 (fromZ 1))) in
  e3 <- np_exp (adiv (smul (c2n pconst) (floats spec)) (floats temp)) ;;
  let y := adiv (smul (c1en pconst) (floats (vpow spec 3)))
                (asubs e3 (fromZ 1)) in
  let dplanckA := amul f y in
  unflatten tempIn specIn dplanckA.

Definition dplnckqf (frequency temperature : input F) : M F (pyobj F) :=
  let tempIn := np_array temperature in
  let specIn := np_array frequency in
  let '(specgrid, tempgrid) := meshgrid specIn tempIn in
  let spec := ravel specgrid in
  let temp := ravel tempgrid in
  let xx := adiv (smul (c2f pconst) (floats spec)) (floats temp) in
  e1 <- np_exp xx ;;
  e2 <- np_exp xx ;;
  let f := adiv (amul xx e1) (amul (floats temp) (asubs e2 (fromZ 1))) in
  e3 <- np_exp (adiv (smul (c2f pconst) (floats spec)) (floats temp)) ;;
  let y := adiv (smul (c1nf pconst) (floats (vpow spec 2)))
                (asubs e3 (fromZ 1)) in
  let dplanckA := amul f y in
  unflatten tempIn specIn dplanckA.

Definition dplnckql (wavelength temperature : input F) : M F (pyobj F) :=
  let tempIn := np_array temperature in
  let specIn := np_array wavelength in
  let '(specgrid, tempgrid) := meshgrid specIn tempIn in
  let spec := ravel specgrid in
  let temp := ravel tempgrid in
  let xx := sdiv (c2l pconst) (floats (vmul spec temp)) in
  e1 <- np_exp xx ;;
  e2 <- np_exp xx ;;
  let f := adiv (amul xx e1) (amul (floats temp) (asubs e2 (fromZ 1))) in
  e3 <- np_exp (sdiv (c2l pconst) (floats (vmul temp spec))) ;;
  let y := sdiv (c1ql pconst)
                (amul (floats (vpow spec 4)) (asubs e3 (fromZ 1))) in
  let dplanckA := amul f y in
  unflatten tempIn specIn dplanckA.

Definition dplnckqn (wavenumber temperature : input F) : M F (pyobj F) :=
  let tempIn := np_array temperature in
  let specIn := np_array wavenumber in
  let '(specgrid, tempgrid) := meshgrid specIn tempIn in
  let spec := ravel specgrid in
  let temp := ravel tempgrid in
  let xx := adiv (smul (c2n pconst) (floats spec)) (floats temp) in
  e1 <- np_exp xx ;;
  e2 <- np_exp xx ;;
  let f := adiv (amul xx e1) (amul (floats temp) (asubs e2 (fromZ 1))) in
  e3 <- np_exp (adiv (smul (c2n pconst) (floats spec)) (floats temp)) ;;
  let y := adiv (smul (c1qn pconst) (floats (vpow spec 2)))
                (asubs e3 (fromZ 1)) in
  let dplanckA := amul f y in
  unflatten tempIn specIn dplanckA.

(** ** Dictionaries used as case statements *)

(** A Python dict with string keys, as the list of its items. *)
Definition dict (V : Type) : Type := list (string * V).

(** [key in d.keys()] *)
Fixpoint dict_mem {V} (key : string) (d : dict V) : bool :=
  match d with
  | [] => false
  | (k, _) :: d' => if String.eqb k key then true else dict_mem key d'
  end.

(** [d.get(key, default)] *)
Fixpoint dict_get {V} (d : dict V) (key : string) (default : V) : V :=
  match d with
  | [] => default
  | (k, v) :: d' => if String.eqb k key then v else dict_get d' key default
  end.

(** [d[key]], which raises [KeyError] on a missing key *)
Fixpoint dict_getitem {V} (d : dict V) (key : string) : M F V :=
  match d with
  | [] => raise KeyError
  | (k, v) :: d' => if String.eqb k key then ret v else dict_getitem d' key
  end.

(** ** Stefan-Boltzmann *)

(** Python's [x ** n] on a float *)
Definition py_pow (x : F) (n : nat) : M F F :=
  if fpow_overflows x n then raise OverflowError else ret (x ** n).

(** [temperature] is a Python float, as the docstring asks. *)
Definition stefanboltzman (temperature : F) (type : string) : M F F :=
  let rtnval :=
    dict_get
      [ ("e"%string, fun temperature =>
                       p <- py_pow temperature 4 ;; ret (sigmae pconst * p));
        ("q"%string, fun temperature =>
                       p <- py_pow temperature 3 ;; ret (sigmaq pconst * p)) ]
      type (fun temperature => ret (fromZ (-1))) temperature in
  rtnval.

(** ** Dispatch on the selector string *)

Definition plancktype : dict (input F -> input F -> M F (pyobj F)) :=
  [ ("el"%string, planckel); ("ef"%string, planckef);
    ("en"%string, plancken); ("ql"%string, planckql);
    ("qf"%string, planckqf); ("qn"%string, planckqn) ].

Definition dplancktype : dict (input F -> input F -> M F (pyobj F)) :=
  [ ("el"%string, dplnckel); ("ef"%string, dplnckef);
    ("en"%string, dplncken); ("ql"%string, dplnckql);
    ("qf"%string, dplnckqf); ("qn"%string, dplnckqn) ].

Definition planck (spectral temperature : input F) (type : string)
  : M F (pyobj F) :=
  if dict_mem type plancktype then
    fn <- dict_getitem plancktype type ;;
    fn spectral temperature
  else
    s <- get_shape spectral ;;
    ret (NdArray (np_neg (np_ones s))).

Definition dplanck (spectral temperature : input F) (type : string)
  : M F (pyobj F) :=
  if dict_mem type dplancktype then
    fn <- dict_getitem dplancktype type ;;
    fn spectral temperature
  else
    s <- get_shape spectral ;;
    ret (NdArray (np_neg (np_ones s))).

End Ryplanck.

(* ================================================================== *)
(** * chroma.py *)

Section Chroma.
Context {F : Type} {AF : Arith F}.
Local Open Scope arith_scope.

(** The five arguments of [chromaticityforSpectralL] are arrays of shape
    (N,) or (N,1); each is kept as the list of its N elements.  After
    [reshape(-1, 1)] all intermediate arrays are columns, and two columns
    combine by numpy's broadcasting rule: equal lengths, or one of them of
    length one; anything else raises [ValueError]. *)
Definition col_broadcast (op : F -> F -> F) (a b : list F) : M F (list F) :=
  if Nat.eqb (length a) (length b) then ret (map2 op a b)
  else match a, b with
       | [x], _ => ret (map (op x) b)
       | _, [y] => ret (map (fun x => op x y) a)
       | _, _ => raise ValueError
       end.

(** [numpy.diff(x)]: [x[1:] - x[:-1]] *)
Definition diff (x : list F) : list F := map2 fsub (tl x) (removelast x).

(** [a.sum(axis=0)] of a column: zero for an empty column, else the sum
    of its elements in the order numpy adds them. *)
Definition np_sum (a : list F) : F :=
  match a with
  | [] => fromZ 0
  | _ :: _ => fsum a
  end.

(** [numpy.trapz(y, x, axis=0)] for a column [y]:
    [(d * (y[1:] + y[:-1]) / 2.0).sum(axis)] with [d = diff(x)]. *)
Definition trapz (y x : list F) : M F F :=
  let d := diff x in
  t <- col_broadcast fmul d (map2 fadd (tl y) (removelast y)) ;;
  ret (np_sum (map (fun v => v / fromZ 2) t)).

Definition chromaticityforSpectralL (spectral radiance xbar ybar zbar : list F)
  : M F (list F) :=
  rx <- col_broadcast fmul radiance xbar ;;
  X <- trapz rx spectral ;;
  ry <- col_broadcast fmul radiance ybar ;;
  Y <- trapz ry spectral ;;
  rz <- col_broadcast fmul radiance zbar ;;
  Z <- trapz rz spectral ;;
  let x := X / (X + Y + Z) in
  let y := Y / (X + Y + Z) in
  ret [x; y; Y].

End Chroma.

(* ================================================================== *)
(** * The two instances of the arithmetic *)

(** ** Real numbers *)

Definition Rltb (x y : R) : bool := if Rlt_dec x y then true else false.

#[export] Instance Arith_R : Arith R := {|
  fadd := Rplus;
  fsub := Rminus;
  fmul := Rmult;
  fdiv := Rdiv;
  fneg := Ropp;
  fpow := pow;
  fexp := exp;
  fltb := Rltb;
  fromZ := IZR;
  lit_explimit := (7097 / 10)%R;
  lit_zeta3 := (12020569031595942853 / 10000000000000000000)%R;
  of_int64 := IZR;
  fpow_overflows := fun _ _ => false;
  fsum := fun a => match a with
                   | [] => 0%R
                   | x :: r => fold_left Rplus r x
                   end
|}.

(** ** IEEE-754 binary64 *)

(* Decimal literals denote the nearest binary64 value, as in Python. *)
Set Warnings "-inexact-float".

(** An integer literal as a float (exact for the small literals of the
    source). *)
Definition Z2float (z : Z) : float :=
  match z with
  | Z0 => 0%float
  | Zpos _ => PrimFloat.of_uint63 (Uint63.of_Z z)
  | Zneg p => (- PrimFloat.of_uint63 (Uint63.of_Z (Zpos p)))%float
  end.

(** Not a number or an infinity. *)
Definition nonfinite (x : float) : bool :=
  match Prim2SF x with
  | S754_nan | S754_infinity _ => true
  | _ => false
  end.

(** An int64 value as the nearest float64 (ties to even) *)
Definition int64_to_float (z : Z) : float :=
  SF2Prim (binary_normalize prec emax z 0 false).

(** Adding from the first element on: the order of [numpy.sum] before
    numpy 1.9, and for fewer than eight elements since. *)
Definition sum_in_order (a : list float) : float :=
  match a with
  | [] => 0%float
  | x :: r => fold_left PrimFloat.add r x
  end.

(** [exp_f] stands for [numpy.exp] on a float64, [pow_f] for [**] with an
    integer exponent and [sum_f] for [numpy.sum] on an array that is not
    empty.  Python's [**] raises [OverflowError] when a finite float gives
    an infinite power. *)
Definition Arith_float_with (exp_f : float -> float)
           (pow_f : float -> nat -> float) (sum_f : list float -> float)
  : Arith float := {|
  fadd := PrimFloat.add;
  fsub := PrimFloat.sub;
  fmul := PrimFloat.mul;
  fdiv := PrimFloat.div;
  fneg := PrimFloat.opp;
  fpow := pow_f;
  fexp := exp_f;
  fltb := PrimFloat.ltb;
  fromZ := Z2float;
  lit_explimit := 709.7%float;
  lit_zeta3 := 1.2020569031595942853%float;
  of_int64 := int64_to_float;
  fpow_overflows := fun x n => negb (nonfinite x) && nonfinite (pow_f x n);
  fsum := sum_f
|}.

(** The instance with sums taken in order *)
Definition Arith_float (exp_f : float -> float) (pow_f : float -> nat -> float)
  : Arith float := Arith_float_with exp_f pow_f sum_in_order.

(** The values of [scipy.constants] (CODATA 2010, the set the module's
    docstring names) and [numpy.pi], as float64. *)
Definition codata2010 : SciConst float :=
  mk_SciConst 6.62606957e-34%float 299792458%float 1.3806488e-23%float
              5.670373e-8%float 3.141592653589793%float.

(* ================================================================== *)
(** * The evaluators seen element by element

    What each evaluator computes for one pair (spectral value, temperature)
    of the grid, read off its array expressions. *)

Section Elementwise.
Context {F : Type} {AF : Arith F}.
Variable sc : SciConst F.
Local Open Scope arith_scope.

(** The pairs of the grid in the order of the ravelled meshgrid: for each
    temperature in turn, every spectral value. *)
Definition grid (ss ts : list F) : list (F * F) :=
  flat_map (fun t => map (fun s => (s, t)) ss) ts.

(** The elements of an input, and the inputs of rank at most one: numbers,
    lists and rank-1 arrays (a rank-0 array counts as a number). *)
Definition elements (v : pyobj F) : list F := data (np_array_ndmin1 v).
Definition flat (v : pyobj F) : Prop :=
  shape (np_array_ndmin1 v) = [length (elements v)].

(** [numpy.where(x < explimit, x, 1)] and [numpy.where(x < explimit, p, 0)]
    on one element *)
Definition clamp (x : F) : F := if x <? explimit then x else fromZ 1.
Definition guard (x p : F) : F := if x <? explimit then p else fromZ 0.

(** The exponents as the code computes them *)
Definition exP_l (s t : F) : F := c2l (pconst sc) / (s * t).
Definition exP_f (s t : F) : F := c2f (pconst sc) * s / t.
Definition exP_n (s t : F) : F := c2n (pconst sc) * s / t.
(** [plancken] alone writes [c2n * (spec / temp)] *)
Definition exP_n' (s t : F) : F := c2n (pconst sc) * (s / t).

Definition planckef_at (s t : F) : F :=
  guard (exP_f s t)
        (c1ef (pconst sc) * s ** 3 / (fexp (clamp (exP_f s t)) - fromZ 1)).
Definition planckel_at (s t : F) : F :=
  guard (exP_l s t)
        (c1el (pconst sc) / (fexp (clamp (exP_l s t)) - fromZ 1) / s ** 5).
Definition plancken_at (s t : F) : F :=
  guard (exP_n' s t)
        (c1en (pconst sc) * s ** 3 / (fexp (exP_n' s t) - fromZ 1)).
Definition planckqf_at (s t : F) : F :=
  guard (exP_f s t)
        (c1nf (pconst sc) * s ** 2 / (fexp (clamp (exP_f s t)) - fromZ 1)).
Definition planckql_at (s t : F) : F :=
  guard (exP_l s t)
        (c1ql (pconst sc) / (fexp (clamp (exP_l s t)) - fromZ 1) / s ** 4).
Definition planckqn_at (s t : F) : F :=
  guard (exP_n s t)
        (c1qn (pconst sc) * s ** 2 / (fexp (clamp (exP_n s t)) - fromZ 1)).

(** The factor [f] shared by five of the derivatives *)
Definition dfactor (xx t : F) : F :=
  xx * fexp xx / (t * (fexp xx - fromZ 1)).

Definition dplnckef_at (s t : F) : F :=
  dfactor (exP_f s t) t
  * (c1ef (pconst sc) * s ** 3 / (fexp (exP_f s t) - fromZ 1)).
Definition dplnckel_at (s t : F) : F :=
  (c1el (pconst sc) * exP_l s t * fexp (exP_l s t)
   / (fexp (exP_l s t) - fromZ 1))
  / (t * s ** 5 * (fexp (exP_l s t) - fromZ 1)).
Definition dplncken_at (s t : F) : F :=
  dfactor (exP_n s t) t
  * (c1en (pconst sc) * s ** 3 / (fexp (exP_n s t) - fromZ 1)).
Definition dplnckqf_at (s t : F) : F :=
  dfactor (exP_f s t) t
  * (c1nf (pconst sc) * s ** 2 / (fexp (exP_f s t) - fromZ 1)).
Definition dplnckql_at (s t : F) : F :=
  dfactor (exP_l s t) t
  * (c1ql (pconst sc)
     / (s ** 4 * (fexp (c2l (pconst sc) / (t * s)) - fromZ 1))).
Definition dplnckqn_at (s t : F) : F :=
  dfactor (exP_n s t) t
  * (c1qn (pconst sc) * s ** 2 / (fexp (exP_n s t) - fromZ 1)).

(** An element-wise function laid over the grid of two inputs and given
    the output shape. *)
Definition pointwise (f : F -> F -> F) (spectral temperature : pyobj F)
  : M F (pyobj F) :=
  unflatten (np_array_ndmin1 temperature) (np_array_ndmin1 spectral)
            (map (fun p => f (fst p) (snd p))
                 (grid (elements spectral) (elements temperature))).

(** An element-wise function of the grid, as the array it is applied to. *)
Definition over_grid (f : F -> F -> F) (spectral temperature : pyobj F)
  : list F :=
  map (fun p => f (fst p) (snd p))
      (grid (elements spectral) (elements temperature)).

End Elementwise.

(* ================================================================== *)
(** * The two families of six evaluators *)

Inductive quantity : Type := radiant | photon_rate.
Inductive domain : Type := wavelength | wavenumber | frequency.
Inductive family : Type := exitance | derivative.

(** The selector string of a quantity and a domain *)
Definition token (q : quantity) (d : domain) : string :=
  match q, d with
  | radiant, wavelength => "el"
  | radiant, wavenumber => "en"
  | radiant, frequency => "ef"
  | photon_rate, wavelength => "ql"
  | photon_rate, wavenumber => "qn"
  | photon_rate, frequency => "qf"
  end.

Section Families.
Context {F : Type} {AF : Arith F}.
Variable sc : SciConst F.

Definition exitance_fn (q : quantity) (d : domain)
  : input F -> input F -> M F (pyobj F) :=
  match q, d with
  | radiant, wavelength => planckel sc
  | radiant, wavenumber => plancken sc
  | radiant, frequency => planckef sc
  | photon_rate, wavelength => planckql sc
  | photon_rate, wavenumber => planckqn sc
  | photon_rate, frequency => planckqf sc
  end.

Definition derivative_fn (q : quantity) (d : domain)
  : input F -> input F -> M F (pyobj F) :=
  match q, d with
  | radiant, wavelength => dplnckel sc
  | radiant, wavenumber => dplncken sc
  | radiant, frequency => dplnckef sc
  | photon_rate, wavelength => dplnckql sc
  | photon_rate, wavenumber => dplnckqn sc
  | photon_rate, frequency => dplnckqf sc
  end.

Definition evaluator (fam : family) : quantity -> domain ->
                                      input F -> input F -> M F (pyobj F) :=
  match fam with exitance => exitance_fn | derivative => derivative_fn end.

Definition exitance_at (q : quantity) (d : domain) : F -> F -> F :=
  match q, d with
  | radiant, wavelength => planckel_at sc
  | radiant, wavenumber => plancken_at sc
  | radiant, frequency => planckef_at sc
  | photon_rate, wavelength => planckql_at sc
  | photon_rate, wavenumber => planckqn_at sc
  | photon_rate, frequency => planckqf_at sc
  end.

Definition derivative_at (q : quantity) (d : domain) : F -> F -> F :=
  match q, d with
  | radiant, wavelength => dplnckel_at sc
  | radiant, wavenumber => dplncken_at sc
  | radiant, frequency => dplnckef_at sc
  | photon_rate, wavelength => dplnckql_at sc
  | photon_rate, wavenumber => dplnckqn_at sc
  | photon_rate, frequency => dplnckqf_at sc
  end.

Definition evaluator_at (fam : family) : quantity -> domain -> F -> F -> F :=
  match fam with exitance => exitance_at | derivative => derivative_at end.

(** The numbers held by a returned value *)
Definition values (r : pyobj F) : list F :=
  match r with
  | PyFloat x => [x]
  | PyList xs => xs
  | NdArray a => data a
  end.

End Families.

(* ================================================================== *)
(** * The formulas of the specification, over the real numbers *)

Section SpecFormulas.
Variable pc : PlanckConstants R.
Local Open Scope R_scope.

(** The exponent [x] of each domain *)
Definition spec_exponent (d : domain) (s T : R) : R :=
  match d with
  | wavelength => c2l pc / (s * T)
  | wavenumber => c2n pc * s / T
  | frequency => c2f pc * s / T
  end.

(** The exitance formula [c1 * spectral^p / (exp(x) - 1)] of each domain and
    quantity, without the guard *)
Definition spec_eta (q : quantity) (d : domain) (s T : R) : R :=
  let x := spec_exponent d s T in
  match q, d with
  | radiant, wavelength => c1el pc / (s ^ 5 * (exp x - 1))
  | photon_rate, wavelength => c1ql pc / (s ^ 4 * (exp x - 1))
  | radiant, wavenumber => c1en pc * s ^ 3 / (exp x - 1)
  | photon_rate, wavenumber => c1qn pc * s ^ 2 / (exp x - 1)
  | radiant, frequency => c1ef pc * s ^ 3 / (exp x - 1)
  | photon_rate, frequency => c1nf pc * s ^ 2 / (exp x - 1)
  end.

(** The guarded exitance: zero once the exponent reaches 709.7 *)
Definition spec_exitance (q : quantity) (d : domain) (s T : R) : R :=
  if Rle_dec (7097 / 10) (spec_exponent d s T) then 0 else spec_eta q d s T.

(** [factor = x * e^x / (T * (e^x - 1))] *)
Definition spec_factor (x T : R) : R := x * exp x / (T * (exp x - 1)).

(** [d eta / dT = factor * eta] *)
Definition spec_derivative (q : quantity) (d : domain) (s T : R) : R :=
  spec_factor (spec_exponent d s T) T * spec_eta q d s T.


End SpecFormulas.

(** The values of [scipy.constants] (CODATA 2010) as real numbers, with the
    real number pi for [numpy.pi]. *)
Definition codata2010_R : SciConst R :=
  mk_SciConst (662606957 / 10 ^ 42)%R 299792458%R (13806488 / 10 ^ 30)%R
              (5670373 / 10 ^ 14)%R PI.

(** The physical constants are positive. *)
Definition positive_constants (sc : SciConst R) : Prop :=
  (0 < const_h sc /\ 0 < const_c sc /\ 0 < const_k sc /\ 0 < const_pi sc)%R.

(* ================================================================== *)
(** * Further definitions used by the properties below *)



(** The pairs (spectral value, temperature) in the order of the returned
    elements: for each spectral value in turn, every temperature. *)
Definition out_grid {F : Type} (ss ts : list F) : list (F * F) :=
  flat_map (fun s => map (fun t => (s, t)) ts) ss.

(** The number returned by a call, [default] when the call raises or
    returns an array. *)
Definition scalar_result {F : Type} (m : M F (pyobj F)) (default : F) : F :=
  match outcome m with
  | inr (PyFloat v) => v
  | _ => default
  end.

(** The energy of one photon in the unit system of each domain:
    [h c / lambda] with the wavelength in micrometres, [h c nu] with the
    wavenumber per centimetre, [h f]. *)
Definition photon_energy (sc : SciConst R) (d : domain) (s : R) : R :=
  match d with
  | wavelength => (const_h sc * const_c sc * 1000000 / s)%R
  | wavenumber => (const_h sc * const_c sc * 100 * s)%R
  | frequency => (const_h sc * s)%R
  end.

(** Each unguarded formula as a function of the temperature alone:
    [amplitude / (exp(slope / T) - 1)]. *)
Definition planck_amplitude (pc : PlanckConstants R) (q : quantity)
           (d : domain) (s : R) : R :=
  match q, d with
  | radiant, wavelength => (c1el pc / s ^ 5)%R
  | photon_rate, wavelength => (c1ql pc / s ^ 4)%R
  | radiant, wavenumber => (c1en pc * s ^ 3)%R
  | photon_rate, wavenumber => (c1qn pc * s ^ 2)%R
  | radiant, frequency => (c1ef pc * s ^ 3)%R
  | photon_rate, frequency => (c1nf pc * s ^ 2)%R
  end.

Definition planck_slope (pc : PlanckConstants R) (d : domain) (s : R) : R :=
  match d with
  | wavelength => (c2l pc / s)%R
  | wavenumber => (c2n pc * s)%R
  | frequency => (c2f pc * s)%R
  end.


(** ** Binary64 values by sign and size *)

(** A positive number with exponent field at least [k] (53 bits of
    mantissa times [2^e], [k <= e]) or [+infinity]. *)
Definition SF_big (k : Z) (x : spec_float) : Prop :=
  match x with
  | S754_infinity false => True
  | S754_finite false _ e => (k <= e)%Z
  | _ => False
  end.

Definition big (k : Z) (x : float) : Prop := SF_big k (Prim2SF x).

(** [+0], a positive number or [+infinity]. *)
Definition SF_nonneg (x : spec_float) : Prop :=
  match x with
  | S754_zero false | S754_infinity false | S754_finite false _ _ => True
  | _ => False
  end.

(** Not negative: a NaN, [+0], a positive number or [+infinity]. *)
Definition not_negative (x : float) : bool :=
  match Prim2SF x with
  | S754_nan | S754_zero false | S754_infinity false
  | S754_finite false _ _ => true
  | _ => false
  end.

(** A NaN or [+infinity]. *)
Definition nan_or_inf (x : float) : bool :=
  match Prim2SF x with
  | S754_nan | S754_infinity false => true
  | _ => false
  end.

(** The exponent each evaluator computes for one pair of the grid. *)
Definition exponent_at {F : Type} {AF : Arith F} (sc : SciConst F)
           (fam : family) (q : quantity) (d : domain) : F -> F -> F :=
  match d with
  | wavelength => exP_l sc
  | frequency => exP_f sc
  | wavenumber =>
      match fam, q with
      | exitance, radiant => exP_n' sc
      | _, _ => exP_n sc
      end
  end.

(* ================================================================== *)
(** * The roots and the Wien constants of [PlanckConstants.__init__] *)


Section Wien.
Context {F : Type} {AF : Arith F}.
Local Open Scope arith_scope.

(** [PlanckConstants.an]: [n * (1 - numpy.exp(-x)) - x] *)
Definition an (x : F) (n : Z) : F :=
  fromZ n * (fromZ 1 - fexp (fneg x)) - x.


End Wien.

(** The four calls of [brentq] in [__init__]: the order [n] handed on to
    [an], and the two ends of the bracket. *)
Definition root_searches : list (Z * R * R) :=
  [(2%Z, 1, 2); (3%Z, 2, 3); (4%Z, 7 / 2, 4); (5%Z, 9 / 2, 5)]%R.



(* ================================================================== *)
(** * The working range of the real-number statements

    The spectral values and exponents at which a float64 run follows the
    exact formulas up to rounding, at the CODATA constants: outside,
    [spectral ** p] or the products with [exp(x)] overflow or underflow, or
    [exp(x) - 1] loses its digits. *)

(** Wavelengths from 0.01 to 10^4 micrometres, and the wavenumbers and
    frequencies of that span *)
Definition spectral_span (d : domain) (s : R) : Prop :=
  match d with
  | wavelength => 1 / 100 <= s <= 10 ^ 4
  | wavenumber => 1 <= s <= 10 ^ 6
  | frequency => 10 ^ 10 <= s <= 10 ^ 17
  end%R.

(** For the exitance functions: the guard takes care of large exponents. *)
Definition exitance_range (pc : PlanckConstants R) (d : domain) (s T : R)
  : Prop :=
  (spectral_span d s /\ 0 < T /\ 1 / 1000 <= spec_exponent pc d s T)%R.

(** For the derivative functions, which have no guard: exponents up to
    600. *)
Definition working_range (pc : PlanckConstants R) (d : domain) (s T : R)
  : Prop :=
  (exitance_range pc d s T /\ spec_exponent pc d s T <= 600)%R.

(** The range of a family of evaluators *)
Definition family_range (pc : PlanckConstants R) (fam : family) (d : domain)
           (s T : R) : Prop :=
  match fam with
  | exitance => exitance_range pc d s T
  | derivative => working_range pc d s T
  end.

(* ================================================================== *)
(** * Lists, grids and the evaluation monad *)

Lemma map_nth_seq {X} (l : list X) (d : X) :
  map (fun i => nth i l d) (seq 0 (length l)) = l.
Proof.
  induction l as [|x l IH]; simpl; [reflexivity|].
  f_equal. rewrite <- seq_shift, map_map. exact IH.
Qed.

Lemma map_over_seq {X Y} (g : X -> Y) (l : list X) (d : X) :
  map g l = map (fun j => g (nth j l d)) (seq 0 (length l)).
Proof.
  transitivity (map g (map (fun j => nth j l d) (seq 0 (length l)))).
  - now rewrite map_nth_seq.
  - apply map_map.
Qed.

Lemma flat_map_over_seq {X Y} (g : X -> list Y) (l : list X) (d : X) :
  flat_map g l = flat_map (fun i => g (nth i l d)) (seq 0 (length l)).
Proof.
  rewrite !flat_map_concat_map. f_equal. apply map_over_seq.
Qed.

Section ListFacts.
Context {A B C : Type}.

Lemma map2_map (op : B -> C -> A) {X} (f : X -> B) (g : X -> C) (l : list X) :
  map2 op (map f l) (map g l) = map (fun p => op (f p) (g p)) l.
Proof.
  induction l as [|x l IH]; simpl; [reflexivity|].
  now rewrite IH.
Qed.

Lemma length_map2 (op : B -> C -> A) (l : list B) (l' : list C) :
  length l = length l' -> length (map2 op l l') = length l.
Proof.
  revert l'; induction l as [|x l IH]; intros [|y l'] H; simpl in *;
    try discriminate; [reflexivity|].
  f_equal. apply IH. now injection H.
Qed.

(** Element [j * n + i] of rows of length [n] laid end to end is element
    [i] of row [j]. *)
Lemma nth_flat_map_rows (row : B -> list A) (n : nat) (l : list B)
      (d : A) (db : B) :
  (forall x, length (row x) = n) ->
  forall i j, i < n -> j < length l ->
  nth (j * n + i) (flat_map row l) d = nth i (row (nth j l db)) d.
Proof.
  intros Hrow i. induction l as [|x l IH]; intros j Hi Hj; simpl in *.
  - lia.
  - destruct j as [|j]; simpl.
    + rewrite app_nth1 by (rewrite Hrow; exact Hi). reflexivity.
    + rewrite app_nth2 by (rewrite Hrow; lia).
      rewrite Hrow.
      replace (n + j * n + i - n) with (j * n + i) by lia.
      apply IH; [exact Hi | lia].
Qed.

Lemma flat_map_nil (g : B -> list A) (l : list B) :
  (forall x, g x = []) -> flat_map g l = [].
Proof.
  intros Hg. induction l as [|x l IH]; simpl; [reflexivity|].
  now rewrite Hg, IH.
Qed.

End ListFacts.

Section MonadFacts.
Context {F : Type} {AF : Arith F}.

Lemma bind_np_exp {B} (a : list F) (k : list F -> M F B) :
  bind (np_exp a) k = (a :: fst (k (map fexp a)), snd (k (map fexp a))).
Proof. unfold bind, np_exp. destruct (k (map fexp a)); reflexivity. Qed.

Lemma unflatten_no_exp {A B} (tempIn : ndarray A) (specIn : ndarray B)
      (l : list F) :
  exp_calls (unflatten tempIn specIn l) = [].
Proof.
  unfold unflatten, exp_calls, reshape1, reshape2, getitem0.
  repeat match goal with
         | |- context [if ?b then _ else _] => destruct b
         | |- context [match ?x with _ => _ end] => destruct x
         end; reflexivity.
Qed.

(** The ravelled meshgrid lists the pairs of [grid]. *)
Lemma meshgrid_spec (x y : ndarray F) :
  ravel (fst (meshgrid x y)) = map fst (grid (data x) (data y)) /\
  ravel (snd (meshgrid x y)) = map snd (grid (data x) (data y)).
Proof.
  unfold meshgrid, ravel, grid, size; simpl.
  induction (data y) as [|t ts [IH1 IH2]]; simpl; [split; reflexivity|].
  rewrite !map_app, !map_map; simpl. split.
  - rewrite map_id. f_equal. exact IH1.
  - f_equal; [|exact IH2].
    clear. induction (data x); simpl; [reflexivity | now f_equal].
Qed.

(** The grid of two converted lists is the converted grid. *)
Lemma grid_map {X} (f : X -> F) (ss ts : list X) :
  grid (map f ss) (map f ts)
  = map (fun p => (f (fst p), f (snd p))) (grid ss ts).
Proof.
  unfold grid. induction ts as [|t ts IH]; simpl; [reflexivity|].
  rewrite map_app, IH, !map_map. reflexivity.
Qed.

Lemma length_grid (ss ts : list F) :
  length (grid ss ts) = length ts * length ss.
Proof.
  unfold grid. induction ts as [|t ts IH]; simpl; [reflexivity|].
  now rewrite length_app, length_map, IH.
Qed.

End MonadFacts.

(** Rewrites an evaluator into its element-wise form: the two ravelled
    grids become maps over [grid], and the array operations fuse. *)
Ltac to_pointwise :=
  unfold over_grid, pointwise, elements; cbn [np_array];
  match goal with
  | |- context [meshgrid ?x ?y] =>
      let H1 := fresh in let H2 := fresh in
      destruct (meshgrid_spec x y) as [H1 H2];
      destruct (meshgrid x y) as [specgrid tempgrid];
      simpl fst in H1; simpl snd in H2;
      unfold amap in H1, H2; cbn [data] in H1, H2;
      rewrite grid_map, map_map in H1, H2; cbn [fst snd] in H1, H2;
      rewrite ?H1, ?H2
  end;
  repeat (rewrite bind_np_exp; cbv beta);
  unfold where_, alts, amul, adiv, smul, sdiv, asubs,
         floats, vmul, vpow;
  repeat (rewrite ?map_map, ?map2_map);
  cbn [as_float nmul npow];
  unfold outcome, exp_calls; cbn [fst snd];
  rewrite ?(unflatten_no_exp : forall a b l, fst (unflatten a b l) = []).

Section EvaluatorsPointwise.
Context {F : Type} {AF : Arith F}.
Variable sc : SciConst F.

Lemma planckel_pointwise (w t : pyobj F) :
  outcome (planckel sc w t) = outcome (pointwise (planckel_at sc) w t) /\
  exp_calls (planckel sc w t)
  = [over_grid (fun s t => clamp (exP_l sc s t)) w t].
Proof.
  unfold planckel. to_pointwise. split; reflexivity.
Qed.

Lemma planckef_pointwise (w t : pyobj F) :
  outcome (planckef sc w t) = outcome (pointwise (planckef_at sc) w t) /\
  exp_calls (planckef sc w t)
  = [over_grid (fun s t => clamp (exP_f sc s t)) w t].
Proof. unfold planckef. to_pointwise. split; reflexivity. Qed.

Lemma plancken_pointwise (w t : pyobj F) :
  outcome (plancken sc w t) = outcome (pointwise (plancken_at sc) w t) /\
  exp_calls (plancken sc w t) = [over_grid (exP_n' sc) w t].
Proof. unfold plancken. to_pointwise. split; reflexivity. Qed.

Lemma planckqf_pointwise (w t : pyobj F) :
  outcome (planckqf sc w t) = outcome (pointwise (planckqf_at sc) w t) /\
  exp_calls (planckqf sc w t)
  = [over_grid (fun s t => clamp (exP_f sc s t)) w t].
Proof. unfold planckqf. to_pointwise. split; reflexivity. Qed.

Lemma planckql_pointwise (w t : pyobj F) :
  outcome (planckql sc w t) = outcome (pointwise (planckql_at sc) w t) /\
  exp_calls (planckql sc w t)
  = [over_grid (fun s t => clamp (exP_l sc s t)) w t].
Proof. unfold planckql. to_pointwise. split; reflexivity. Qed.

Lemma planckqn_pointwise (w t : pyobj F) :
  outcome (planckqn sc w t) = outcome (pointwise (planckqn_at sc) w t) /\
  exp_calls (planckqn sc w t)
  = [over_grid (fun s t => clamp (exP_n sc s t)) w t].
Proof. unfold planckqn. to_pointwise. split; reflexivity. Qed.

Lemma dplnckef_pointwise (w t : pyobj F) :
  outcome (dplnckef sc w t) = outcome (pointwise (dplnckef_at sc) w t) /\
  exp_calls (dplnckef sc w t)
  = [over_grid (exP_f sc) w t; over_grid (exP_f sc) w t;
     over_grid (exP_f sc) w t].
Proof. unfold dplnckef. to_pointwise. split; reflexivity. Qed.

Lemma dplnckel_pointwise (w t : pyobj F) :
  outcome (dplnckel sc w t) = outcome (pointwise (dplnckel_at sc) w t) /\
  exp_calls (dplnckel sc w t)
  = [over_grid (exP_l sc) w t; over_grid (exP_l sc) w t;
     over_grid (exP_l sc) w t].
Proof. unfold dplnckel. to_pointwise. split; reflexivity. Qed.

Lemma dplncken_pointwise (w t : pyobj F) :
  outcome (dplncken sc w t) = outcome (pointwise (dplncken_at sc) w t) /\
  exp_calls (dplncken sc w t)
  = [over_grid (exP_n sc) w t; over_grid (exP_n sc) w t;
     over_grid (exP_n sc) w t].
Proof. unfold dplncken. to_pointwise. split; reflexivity. Qed.

Lemma dplnckqf_pointwise (w t : pyobj F) :
  outcome (dplnckqf sc w t) = outcome (pointwise (dplnckqf_at sc) w t) /\
  exp_calls (dplnckqf sc w t)
  = [over_grid (exP_f sc) w t; over_grid (exP_f sc) w t;
     over_grid (exP_f sc) w t].
Proof. unfold dplnckqf. to_pointwise. split; reflexivity. Qed.

Lemma dplnckql_pointwise (w t : pyobj F) :
  outcome (dplnckql sc w t) = outcome (pointwise (dplnckql_at sc) w t) /\
  exp_calls (dplnckql sc w t)
  = [over_grid (exP_l sc) w t; over_grid (exP_l sc) w t;
     over_grid (fun s t => fdiv (c2l (pconst sc)) (fmul t s)) w t].
Proof. unfold dplnckql. to_pointwise. split; reflexivity. Qed.

Lemma dplnckqn_pointwise (w t : pyobj F) :
  outcome (dplnckqn sc w t) = outcome (pointwise (dplnckqn_at sc) w t) /\
  exp_calls (dplnckqn sc w t)
  = [over_grid (exP_n sc) w t; over_grid (exP_n sc) w t;
     over_grid (exP_n sc) w t].
Proof. unfold dplnckqn. to_pointwise. split; reflexivity. Qed.

End EvaluatorsPointwise.

(* ================================================================== *)
(** * The output shape *)

Section Unflatten.
Context {F : Type} {AF : Arith F}.
Variable f : F -> F -> F.

Lemma flat_shape0 (v : pyobj F) :
  flat v -> shape0 (np_array_ndmin1 v) = length (elements v).
Proof. unfold flat, shape0. intros ->. reflexivity. Qed.

(** Both inputs single-valued: a bare number. *)
Lemma pointwise_single_single (w t : pyobj F) (s0 t0 : F) :
  flat w -> flat t -> elements w = [s0] -> elements t = [t0] ->
  pointwise f w t = ret (PyFloat (f s0 t0)).
Proof.
  intros Hw Ht Ew Et. unfold pointwise, unflatten.
  rewrite (flat_shape0 Hw), (flat_shape0 Ht), Ew, Et. reflexivity.
Qed.

(** Several spectral values, one temperature: a rank-1 array over the
    spectral values. *)
Lemma pointwise_multi_single (w t : pyobj F) (t0 : F) :
  flat w -> flat t -> length (elements w) <> 1 -> elements t = [t0] ->
  pointwise f w t
  = ret (NdArray (mk_ndarray [length (elements w)]
                             (map (fun s => f s t0) (elements w)))).
Proof.
  intros Hw Ht Nw Et. unfold pointwise, unflatten.
  rewrite (flat_shape0 Hw), (flat_shape0 Ht), Et.
  apply Nat.eqb_neq in Nw. simpl. rewrite Nw. simpl.
  rewrite app_nil_r, map_map. simpl.
  unfold reshape1. rewrite length_map, Nat.eqb_refl. reflexivity.
Qed.

Lemma reshape2_one (l : list F) :
  reshape2 l 1 = ret (mk_ndarray [1; length l] l).
Proof.
  unfold reshape2. rewrite Nat.mod_1_r, Nat.div_1_r. reflexivity.
Qed.

(** One spectral value, several temperatures: a rank-2 array with a single
    row. *)
Lemma pointwise_single_multi (w t : pyobj F) (s0 : F) :
  flat w -> flat t -> elements w = [s0] -> length (elements t) <> 1 ->
  pointwise f w t
  = ret (NdArray (mk_ndarray [1; length (elements t)]
                             (map (fun t' => f s0 t') (elements t)))).
Proof.
  intros Hw Ht Ew Nt. unfold pointwise, unflatten.
  rewrite (flat_shape0 Hw), (flat_shape0 Ht), Ew.
  apply Nat.eqb_neq in Nt. change (length [s0]) with 1.
  rewrite Nt, Nat.eqb_refl. cbn [andb negb].
  unfold grid. cbn [map].
  replace (flat_map (fun t1 : F => [(s0, t1)]) (elements t))
    with (map (fun t1 => (s0, t1)) (elements t))
    by (induction (elements t); simpl; [reflexivity | now f_equal]).
  rewrite map_map, reshape2_one, length_map. reflexivity.
Qed.

(** The transposed grid: its rows run over the spectral values. *)
Lemma transpose_grid (ss ts : list F) :
  transpose (mk_ndarray [length ts; length ss]
                        (map (fun p => f (fst p) (snd p)) (grid ss ts)))
  = mk_ndarray [length ss; length ts]
               (flat_map (fun s => map (fun t => f s t) ts) ss).
Proof.
  unfold transpose; simpl. f_equal.
  destruct ts as [|t0 ts'] eqn:Ets.
  { rewrite !flat_map_nil by reflexivity. reflexivity. }
  rewrite <- Ets.
  destruct ss as [|sd ss'] eqn:Ess; [reflexivity|]. rewrite <- Ess.
  assert (Hdata : map (fun p => f (fst p) (snd p)) (grid ss ts)
                  = flat_map (fun t => map (fun s => f s t) ss) ts).
  { unfold grid. clear. induction ts as [|t ts IH]; simpl; [reflexivity|].
    now rewrite map_app, map_map, IH. }
  rewrite Hdata.
  rewrite (flat_map_over_seq (fun s => map (fun t => f s t) ts) ss sd).
  rewrite !flat_map_concat_map. f_equal.
  apply map_ext_in. intros i Hi. apply in_seq in Hi.
  rewrite (map_over_seq (fun t => f (nth i ss sd) t) ts t0).
  apply map_ext_in. intros j Hj. apply in_seq in Hj.
  rewrite <- flat_map_concat_map.
  rewrite (nth_flat_map_rows (fun t => map (fun s => f s t) ss)
             (n := length ss) ts (fromZ 0) t0);
    [| intros; apply length_map | lia | lia].
  rewrite (nth_indep _ (fromZ 0) (f sd (nth j ts t0)))
    by (rewrite length_map; lia).
  apply (map_nth (fun s => f s (nth j ts t0))).
Qed.

(** Several spectral values and several temperatures: a rank-2 array,
    spectral values along axis 0. *)
Lemma pointwise_multi_multi (w t : pyobj F) :
  flat w -> flat t ->
  length (elements w) <> 1 -> length (elements t) <> 1 ->
  length (elements t) <> 0 ->
  pointwise f w t
  = ret (NdArray
           (mk_ndarray [length (elements w); length (elements t)]
              (flat_map (fun s => map (fun t' => f s t') (elements t))
                        (elements w)))).
Proof.
  intros Hw Ht Nw Nt Zt. unfold pointwise, unflatten.
  rewrite (flat_shape0 Hw), (flat_shape0 Ht).
  apply Nat.eqb_neq in Nw, Nt. rewrite Nw, Nt. cbn [andb negb].
  unfold reshape2. rewrite (proj2 (Nat.eqb_neq _ _) Zt).
  rewrite length_map, length_grid.
  rewrite (Nat.mul_comm (length (elements t))), Nat.Div0.mod_mul.
  rewrite Nat.div_mul by exact Zt.
  cbn [Nat.eqb ret bind app]. rewrite transpose_grid. reflexivity.
Qed.

(** No temperature at all: the inferred dimension cannot be computed. *)
Lemma pointwise_no_temperature (w t : pyobj F) :
  flat w -> flat t ->
  length (elements w) <> 1 -> elements t = [] ->
  pointwise f w t = raise ValueError.
Proof.
  intros Hw Ht Nw Et. unfold pointwise, unflatten.
  rewrite (flat_shape0 Hw), (flat_shape0 Ht), Et.
  apply Nat.eqb_neq in Nw. rewrite Nw. reflexivity.
Qed.

End Unflatten.

Section EvaluatorFamilies.
Context {F : Type} {AF : Arith F}.
Variable sc : SciConst F.

(** Each of the twelve evaluators lays its element-wise function over the
    grid. *)
Lemma evaluator_pointwise (fam : family) (q : quantity) (d : domain)
      (w t : pyobj F) :
  outcome (evaluator sc fam q d w t)
  = outcome (pointwise (evaluator_at sc fam q d) w t).
Proof.
  destruct fam, q, d; cbn [evaluator evaluator_at exitance_fn exitance_at
                              derivative_fn derivative_at].
  - exact (proj1 (planckel_pointwise sc w t)).
  - exact (proj1 (plancken_pointwise sc w t)).
  - exact (proj1 (planckef_pointwise sc w t)).
  - exact (proj1 (planckql_pointwise sc w t)).
  - exact (proj1 (planckqn_pointwise sc w t)).
  - exact (proj1 (planckqf_pointwise sc w t)).
  - exact (proj1 (dplnckel_pointwise sc w t)).
  - exact (proj1 (dplncken_pointwise sc w t)).
  - exact (proj1 (dplnckef_pointwise sc w t)).
  - exact (proj1 (dplnckql_pointwise sc w t)).
  - exact (proj1 (dplnckqn_pointwise sc w t)).
  - exact (proj1 (dplnckqf_pointwise sc w t)).
Qed.

Lemma bind_ret_l {A B} (a : A) (k : A -> M F B) : bind (ret a) k = k a.
Proof. unfold bind, ret. destruct (k a). reflexivity. Qed.

End EvaluatorFamilies.

(* ================================================================== *)
(** * Output shape of the twelve evaluators *)





(** With a spectral input that is not single-valued, an empty temperature
    input makes the evaluator raise. *)
Lemma evaluator_no_temperature :
  forall (F : Type) (AF : Arith F) (sc : SciConst F)
         (fam : family) (q : quantity) (d : domain) (w t : pyobj F),
    flat w -> flat t -> length (elements w) <> 1 -> elements t = [] ->
    outcome (evaluator sc fam q d w t) = inl ValueError.
Proof.
  intros F AF sc fam q d w t Hw Ht Nw Et.
  rewrite evaluator_pointwise.
  now rewrite (pointwise_no_temperature _ Hw Ht Nw Et).
Qed.

(* ================================================================== *)
(** * Dispatch on the selector string *)

(** C6.  For each of the six selector tokens and all inputs, floats and
    integers alike, [planck] returns what the exitance function of that token returns and [dplanck]
    what its derivative function returns (value, exception and calls of
    [numpy.exp] alike). *)
Theorem planck_dispatch :
  forall (F : Type) (AF : Arith F) (sc : SciConst F) (w t : input F),
    (planck sc w t "el" = planckel sc w t /\
     planck sc w t "ef" = planckef sc w t /\
     planck sc w t "en" = plancken sc w t /\
     planck sc w t "ql" = planckql sc w t /\
     planck sc w t "qf" = planckqf sc w t /\
     planck sc w t "qn" = planckqn sc w t) /\
    (dplanck sc w t "el" = dplnckel sc w t /\
     dplanck sc w t "ef" = dplnckef sc w t /\
     dplanck sc w t "en" = dplncken sc w t /\
     dplanck sc w t "ql" = dplnckql sc w t /\
     dplanck sc w t "qf" = dplnckqf sc w t /\
     dplanck sc w t "qn" = dplnckqn sc w t).
Proof.
  intros F AF sc w t.
  unfold planck, dplanck; cbn [dict_mem dict_getitem plancktype dplancktype
                               String.eqb Ascii.eqb Bool.eqb].
  rewrite !bind_ret_l. repeat split.
Qed.

(** The selector of a quantity and a domain reaches the evaluator of that
    quantity and domain. *)
Lemma planck_token :
  forall (F : Type) (AF : Arith F) (sc : SciConst F) (q : quantity)
         (d : domain) (w t : input F),
    planck sc w t (token q d) = exitance_fn sc q d w t /\
    dplanck sc w t (token q d) = derivative_fn sc q d w t.
Proof.
  intros F AF sc q d w t.
  destruct q, d; unfold planck, dplanck;
    cbn [token dict_mem dict_getitem plancktype dplancktype
         String.eqb Ascii.eqb Bool.eqb];
    rewrite !bind_ret_l; split; reflexivity.
Qed.



(** C5, at the failing input.  With an unknown selector and a number (or a
    list) as spectral input, both dispatchers raise [AttributeError]: a
    number has no [shape]. *)
Theorem planck_unknown_scalar_raises :
  forall (F : Type) (AF : Arith F) (sc : SciConst F) (x : F) (xs : list F)
         (t : pyobj F),
    outcome (planck sc (PyFloat x) t "zz") = inl AttributeError /\
    outcome (dplanck sc (PyFloat x) t "zz") = inl AttributeError /\
    outcome (planck sc (PyList xs) t "zz") = inl AttributeError /\
    outcome (dplanck sc (PyList xs) t "zz") = inl AttributeError.
Proof. intros. repeat split. Qed.

(* ================================================================== *)
(** * Stefan-Boltzmann and the constants *)

(** X23.  [stefanboltzman(T, 'e')] is [sigmae * T**4] and
    [stefanboltzman(T, 'q')] is [sigmaq * T**3] unless the power of the Python float [T]
    raises [OverflowError]; any other selector gives -1; no other exception
    is raised. *)
Theorem stefanboltzman_spec :
  forall (F : Type) (AF : Arith F) (sc : SciConst F) (T : F) (type : string),
    (fpow_overflows T 4 = false ->
     stefanboltzman sc T "e" = ret (fmul (sigmae (pconst sc)) (fpow T 4))) /\
    (fpow_overflows T 3 = false ->
     stefanboltzman sc T "q" = ret (fmul (sigmaq (pconst sc)) (fpow T 3))) /\
    (type <> "e"%string -> type <> "q"%string ->
     stefanboltzman sc T type = ret (fromZ (-1))) /\
    (forall e, outcome (stefanboltzman sc T type) = inl e ->
               e = OverflowError).
Proof.
  intros F AF sc T type. repeat split.
  - intros H. unfold stefanboltzman, py_pow; cbn [dict_get String.eqb
      Ascii.eqb Bool.eqb]. now rewrite H.
  - intros H. unfold stefanboltzman, py_pow; cbn [dict_get String.eqb
      Ascii.eqb Bool.eqb]. now rewrite H.
  - intros He Hq. unfold stefanboltzman; cbn [dict_get].
    destruct (String.eqb_spec "e" type) as [E|_]; [congruence|].
    destruct (String.eqb_spec "q" type) as [E|_]; [congruence|].
    reflexivity.
  - intros e. unfold stefanboltzman, py_pow; cbn [dict_get].
    destruct (String.eqb "e" type);
      [destruct (fpow_overflows T 4); cbn; congruence|].
    destruct (String.eqb "q" type);
      [destruct (fpow_overflows T 3); cbn; congruence|].
    cbn. discriminate.
Qed.

Lemma stefanboltzman_spec_witness :
  stefanboltzman codata2010_R 300%R "e"
  = ret (sigmae (pconst codata2010_R) * 300 ^ 4)%R.
Proof.
  exact (proj1 (@stefanboltzman_spec R Arith_R codata2010_R 300%R
                  "e"%string) eq_refl).
Defined.

(** C7, at the failing input.  On binary64, for a Python float [T] that is
    finite: when its fourth power is out of range, [stefanboltzman(T, 'e')]
    raises [OverflowError], and when its third power is, so does
    [stefanboltzman(T, 'q')]. *)
Theorem stefanboltzman_overflow :
  forall (exp_f : float -> float) (pow_f : float -> nat -> float)
         (sc : SciConst float) (T : float),
    nonfinite T = false ->
    (nonfinite (pow_f T 4) = true ->
     outcome (@stefanboltzman float (Arith_float exp_f pow_f) sc T "e")
     = inl OverflowError) /\
    (nonfinite (pow_f T 3) = true ->
     outcome (@stefanboltzman float (Arith_float exp_f pow_f) sc T "q")
     = inl OverflowError).
Proof.
  intros exp_f pow_f sc T HT.
  split; intros H; unfold stefanboltzman, py_pow;
    cbn [dict_get String.eqb Ascii.eqb Bool.eqb fpow_overflows Arith_float
         Arith_float_with];
    rewrite HT, H; reflexivity.
Qed.

Lemma stefanboltzman_overflow_witness :
  outcome (@stefanboltzman float
             (Arith_float (fun x => x)
                (fun x n => Nat.iter n (PrimFloat.mul x) 1%float))
             codata2010 1e80%float "e")
  = inl OverflowError.
Proof.
  refine (proj1 (@stefanboltzman_overflow (fun x => x)
                   (fun x n => Nat.iter n (PrimFloat.mul x) 1%float)
                   codata2010 1e80%float eq_refl) _).
  vm_compute. reflexivity.
Defined.

(** C9 (as amended).  [sigmae] is the library value [scipy.constants.sigma],
    taken as it is, and [sigmaq] is [4 pi zeta(3) k^3 / (h^3 c^2)] computed
    from [h], [c], [k] and the literal for zeta(3). *)
Theorem stefan_boltzmann_constants :
  forall (F : Type) (AF : Arith F) (sc : SciConst F),
    sigmae (pconst sc) = const_sigma sc /\
    sigmaq (pconst sc)
    = fdiv (fmul (fmul (fmul (fromZ 4) (const_pi sc)) lit_zeta3)
                 (fpow (const_k sc) 3))
           (fmul (fpow (const_h sc) 3) (fpow (const_c sc) 2)).
Proof. intros. split; reflexivity. Qed.

(** C9, counterexample: at the CODATA 2010 values the expression
    [pi^4 k^4 / (15 h^3 c^2)] is smaller than the radiant constant of the
    table (it is below 2.4e-8, the constant is 5.670373e-8). *)
Lemma sigmae_counterexample :
  (PI ^ 4 * const_k codata2010_R ^ 4
   / (15 * const_h codata2010_R ^ 3 * const_c codata2010_R ^ 2)
   < sigmae (pconst codata2010_R))%R.
Proof.
  cbn [sigmae pconst PlanckConstants_init codata2010_R const_sigma const_k
       const_h const_c].
  assert (H4 : (PI <= 4)%R) by apply PI_4.
  assert (H0 : (0 < PI)%R) by apply PI_RGT_0.
  assert (Hp : (PI ^ 4 <= 256)%R).
  { replace 256%R with (4 ^ 4)%R by lra. apply pow_incr. lra. }
  set (X := (PI ^ 4)%R) in *.
  assert (HX : (0 <= X)%R) by (unfold X; apply pow_le; lra).
  clearbody X. lra.
Qed.

(* ================================================================== *)
(** * The exitance formulas, over the real numbers *)

Section RealFormulas.
Variable sc : SciConst R.
Local Open Scope R_scope.

Lemma Rltb_true (x y : R) : x < y -> Rltb x y = true.
Proof. unfold Rltb. intros H. destruct (Rlt_dec x y); [reflexivity | tauto]. Qed.

Lemma Rltb_false (x y : R) : y <= x -> Rltb x y = false.
Proof. unfold Rltb. intros H. destruct (Rlt_dec x y); [lra | reflexivity]. Qed.

(** The exponent the code computes is the exponent of the domain. *)
Lemma exP_spec (s T : R) :
  exP_l sc s T = spec_exponent (pconst sc) wavelength s T /\
  exP_n sc s T = spec_exponent (pconst sc) wavenumber s T /\
  exP_n' sc s T = spec_exponent (pconst sc) wavenumber s T /\
  exP_f sc s T = spec_exponent (pconst sc) frequency s T.
Proof.
  unfold exP_l, exP_n, exP_n', exP_f, spec_exponent.
  cbn [fdiv fmul Arith_R]. repeat split. unfold Rdiv. ring.
Qed.

(** The guard and the clamp, over the real numbers *)
Lemma guard_R (x p : R) :
  guard x p = if Rle_dec (7097 / 10) x then 0 else p.
Proof.
  unfold guard, explimit. cbn [fltb lit_explimit fromZ Arith_R].
  destruct (Rle_dec (7097 / 10) x) as [H|H].
  - now rewrite Rltb_false.
  - rewrite Rltb_true; [reflexivity | lra].
Qed.

Lemma clamp_R (x : R) : x < 7097 / 10 -> clamp x = x.
Proof.
  intros H. unfold clamp, explimit. cbn [fltb lit_explimit Arith_R].
  now rewrite Rltb_true.
Qed.

(** On one pair, the code computes the guarded formula. *)
Lemma exitance_at_spec (q : quantity) (d : domain) (s T : R) :
  exitance_at sc q d s T = spec_exitance (pconst sc) q d s T.
Proof.
  destruct (exP_spec s T) as (El & En & En' & Ef).
  unfold spec_exitance.
  destruct q, d; cbn [exitance_at];
    unfold planckel_at, plancken_at, planckef_at, planckql_at, planckqn_at,
           planckqf_at;
    rewrite ?El, ?En, ?En', ?Ef, guard_R;
    match goal with
    | |- context [Rle_dec ?a ?x] => destruct (Rle_dec a x) as [Hx|Hx]
    end; try reflexivity;
    apply Rnot_le_lt in Hx; rewrite ?(clamp_R Hx);
    unfold spec_eta; cbn [fdiv fmul fsub fpow fexp fromZ Arith_R];
    try reflexivity; unfold Rdiv; rewrite Rinv_mult; ring.
Qed.

(** On one pair, the code computes factor times the unguarded formula. *)
Lemma derivative_at_spec (q : quantity) (d : domain) (s T : R) :
  derivative_at sc q d s T = spec_derivative (pconst sc) q d s T.
Proof.
  destruct (exP_spec s T) as (El & En & En' & Ef).
  assert (Els : fdiv (c2l (pconst sc)) (fmul T s)
                = spec_exponent (pconst sc) wavelength s T).
  { unfold spec_exponent. cbn [fdiv fmul Arith_R].
    now rewrite (Rmult_comm T s). }
  destruct q, d; cbn [derivative_at];
    unfold dplnckel_at, dplncken_at, dplnckef_at, dplnckql_at, dplnckqn_at,
           dplnckqf_at, dfactor;
    rewrite ?Els, ?El, ?En, ?Ef;
    unfold spec_derivative, spec_factor, spec_eta;
    cbn [fdiv fmul fsub fpow fexp fromZ Arith_R];
    try reflexivity.
  unfold Rdiv. rewrite !Rinv_mult. ring.
Qed.

End RealFormulas.

Lemma over_grid_ext {F : Type} {AF : Arith F} (f g : F -> F -> F)
      (w t : pyobj F) :
  (forall s T, f s T = g s T) -> over_grid f w t = over_grid g w t.
Proof. intros H. unfold over_grid. apply map_ext. intros p. apply H. Qed.

(** For positive constants and a positive pair the exponent is positive,
    so that [exp(x) - 1], the denominator of every formula, is positive. *)
Lemma spec_exponent_pos (sc : SciConst R) (d : domain) (s T : R) :
  positive_constants sc -> (0 < s)%R -> (0 < T)%R ->
  (0 < spec_exponent (pconst sc) d s T /\
   0 < exp (spec_exponent (pconst sc) d s T) - 1)%R.
Proof.
  intros (Hh & Hc & Hk & _) Hs HT.
  assert (Hx : (0 < spec_exponent (pconst sc) d s T)%R).
  { assert (Hm : (0 < const_h sc * const_c sc / const_k sc)%R)
      by (apply Rdiv_lt_0_compat; [apply Rmult_lt_0_compat|]; assumption).
    assert (Hf : (0 < const_h sc / const_k sc)%R)
      by (apply Rdiv_lt_0_compat; assumption).
    destruct d; unfold spec_exponent;
      cbn [c2l c2n c2f pconst PlanckConstants_init fmul fdiv fromZ Arith_R];
      apply Rdiv_lt_0_compat.
    - apply Rmult_lt_0_compat; [exact Hm | lra].
    - apply Rmult_lt_0_compat; assumption.
    - apply Rmult_lt_0_compat; [|exact Hs].
      apply Rmult_lt_0_compat; [exact Hm | lra].
    - exact HT.
    - apply Rmult_lt_0_compat; [exact Hf | exact Hs].
    - exact HT. }
  split; [exact Hx|].
  assert (Hne : spec_exponent (pconst sc) d s T <> 0%R) by lra.
  pose proof (exp_ineq1 _ Hne). lra.
Qed.

Lemma codata2010_R_positive : positive_constants codata2010_R.
Proof.
  unfold positive_constants; simpl.
  repeat split; first [apply PI_RGT_0 | lra].
Qed.

(* ================================================================== *)
(** * The temperature derivatives, over the real numbers *)

(** The arrays the derivative functions hand to [numpy.exp]: three times
    the array of the exponents, as computed. *)
Lemma derivative_exp_calls (sc : SciConst R) (q : quantity) (d : domain)
      (w t : pyobj R) :
  exp_calls (derivative_fn sc q d w t)
  = [over_grid (spec_exponent (pconst sc) d) w t;
     over_grid (spec_exponent (pconst sc) d) w t;
     over_grid (spec_exponent (pconst sc) d) w t].
Proof.
  assert (El : forall s T, exP_l sc s T
                           = spec_exponent (pconst sc) wavelength s T)
    by (intros; apply exP_spec).
  assert (En : forall s T, exP_n sc s T
                           = spec_exponent (pconst sc) wavenumber s T)
    by (intros; apply exP_spec).
  assert (Ef : forall s T, exP_f sc s T
                           = spec_exponent (pconst sc) frequency s T)
    by (intros; apply exP_spec).
  assert (Els : forall s T, fdiv (c2l (pconst sc)) (fmul T s)
                            = spec_exponent (pconst sc) wavelength s T).
  { intros s T. unfold spec_exponent. simpl fdiv. simpl fmul.
    now rewrite (Rmult_comm T s). }
  destruct q, d; simpl derivative_fn;
    first [ rewrite (proj2 (dplnckel_pointwise sc w t))
          | rewrite (proj2 (dplncken_pointwise sc w t))
          | rewrite (proj2 (dplnckef_pointwise sc w t))
          | rewrite (proj2 (dplnckql_pointwise sc w t))
          | rewrite (proj2 (dplnckqn_pointwise sc w t))
          | rewrite (proj2 (dplnckqf_pointwise sc w t)) ];
    rewrite ?(over_grid_ext _ _ w t El), ?(over_grid_ext _ _ w t En),
            ?(over_grid_ext _ _ w t Ef), ?(over_grid_ext _ _ w t Els);
    reflexivity.
Qed.

(* ================================================================== *)
(** * Chromaticity: the tristimulus integrals *)

Section TrapezoidR.
Local Open Scope R_scope.

Lemma length_removelast_tl {X} (l : list X) :
  length (removelast l) = length (tl l).
Proof.
  induction l as [|a [|b l] IH]; simpl in *; try reflexivity.
  now rewrite IH.
Qed.



End TrapezoidR.

Section ChromaticityErrors.
Context {F : Type} {AF : Arith F}.

Lemma length_diff (x : list F) : length (diff x) = pred (length x).
Proof.
  unfold diff. rewrite length_map2 by (now rewrite length_removelast_tl).
  destruct x; reflexivity.
Qed.

Lemma length_pairs (op : F -> F -> F) (y : list F) :
  length (map2 op (tl y) (removelast y)) = pred (length y).
Proof.
  rewrite length_map2 by (now rewrite length_removelast_tl).
  destruct y; reflexivity.
Qed.

(** Two columns combine when they have one length or one of them has a
    single element, and raise [ValueError] otherwise. *)
Lemma col_broadcast_cases (op : F -> F -> F) (a b : list F) :
  (length a = length b \/ length a = 1 \/ length b = 1 ->
   exists l, col_broadcast op a b = ret l) /\
  (~ (length a = length b \/ length a = 1 \/ length b = 1) ->
   col_broadcast op a b = raise ValueError).
Proof.
  unfold col_broadcast.
  destruct (Nat.eqb_spec (length a) (length b)) as [E|E].
  - split; [eauto | tauto].
  - destruct a as [|x [|x' a]]; destruct b as [|y [|y' b]]; simpl in *;
      split; intros H; eauto; try reflexivity;
      try (exfalso; apply H; auto; fail); exfalso; lia.
Qed.

Lemma col_broadcast_eq (op : F -> F -> F) (a b : list F) :
  length a = length b -> col_broadcast op a b = ret (map2 op a b).
Proof. intros E. unfold col_broadcast. now rewrite E, Nat.eqb_refl. Qed.

Lemma trapz_cases (y x : list F) :
  (pred (length x) = pred (length y) \/ pred (length x) = 1
   \/ pred (length y) = 1 -> exists v, trapz y x = ret v) /\
  (~ (pred (length x) = pred (length y) \/ pred (length x) = 1
      \/ pred (length y) = 1) -> trapz y x = raise ValueError).
Proof.
  unfold trapz.
  destruct (col_broadcast_cases fmul (diff x)
              (map2 fadd (tl y) (removelast y))) as [Hok Herr].
  rewrite length_diff, length_pairs in Hok, Herr. split; intros H.
  - destruct (Hok H) as [l ->]. rewrite bind_ret_l. eauto.
  - now rewrite (Herr H).
Qed.

(** X1.  With the four curves of one length, [chromaticityforSpectralL] raises
    [ValueError] exactly when the spectral grid does not fit them: the grid
    has neither as many intervals as the curves, nor a single interval, nor
    do the curves span a single interval.  Otherwise it returns a triple. *)
Theorem chromaticity_value_error :
  forall (spectral radiance xbar ybar zbar : list F),
    length xbar = length radiance ->
    length ybar = length radiance ->
    length zbar = length radiance ->
    let fits := pred (length spectral) = pred (length radiance)
                \/ pred (length spectral) = 1
                \/ pred (length radiance) = 1 in
    (fits -> exists x y Y,
        chromaticityforSpectralL spectral radiance xbar ybar zbar
        = ret [x; y; Y]) /\
    (~ fits ->
        chromaticityforSpectralL spectral radiance xbar ybar zbar
        = raise ValueError).
Proof.
  intros spectral radiance xbar ybar zbar Hx Hy Hz fits.
  unfold chromaticityforSpectralL.
  assert (Lx : length (map2 fmul radiance xbar) = length radiance)
    by (apply length_map2; congruence).
  assert (Ly : length (map2 fmul radiance ybar) = length radiance)
    by (apply length_map2; congruence).
  assert (Lz : length (map2 fmul radiance zbar) = length radiance)
    by (apply length_map2; congruence).
  destruct (trapz_cases (map2 fmul radiance xbar) spectral) as [Xok Xerr].
  destruct (trapz_cases (map2 fmul radiance ybar) spectral) as [Yok Yerr].
  destruct (trapz_cases (map2 fmul radiance zbar) spectral) as [Zok Zerr].
  rewrite Lx in Xok, Xerr. rewrite Ly in Yok. rewrite Lz in Zok.
  rewrite col_broadcast_eq, bind_ret_l by congruence.
  split; intros H.
  - destruct (Xok H) as [X ->]. rewrite bind_ret_l.
    rewrite col_broadcast_eq, bind_ret_l by congruence.
    destruct (Yok H) as [Y ->]. rewrite bind_ret_l.
    rewrite col_broadcast_eq, bind_ret_l by congruence.
    destruct (Zok H) as [Z ->]. rewrite bind_ret_l. eauto.
  - now rewrite (Xerr H).
Qed.

End ChromaticityErrors.

Lemma chromaticity_value_error_witness :
  @chromaticityforSpectralL R Arith_R [1%R] [1%R; 2%R; 3%R; 4%R]
     [1%R; 1%R; 1%R; 1%R] [1%R; 1%R; 1%R; 1%R] [1%R; 1%R; 1%R; 1%R]
  = raise ValueError.
Proof.
  refine (proj2 (@chromaticity_value_error R Arith_R [1%R]
                   [1%R; 2%R; 3%R; 4%R] [1%R; 1%R; 1%R; 1%R]
                   [1%R; 1%R; 1%R; 1%R] [1%R; 1%R; 1%R; 1%R]
                   eq_refl eq_refl eq_refl) _).
  simpl. intros [H|[H|H]]; discriminate H.
Defined.

Section ChromaticityR.
Local Open Scope R_scope.












End ChromaticityR.

(* ================================================================== *)
(** * IEEE-754 facts used below *)

Lemma Prim2SF_zero : Prim2SF 0%float = S754_zero false.
Proof. reflexivity. Qed.

(** Dividing by a zero gives a NaN or an infinity, whatever the dividend. *)
Lemma div_by_zero_nonfinite (a s : float) :
  (s =? 0)%float = true -> nonfinite (a / s) = true.
Proof.
  intros H. rewrite eqb_spec, Prim2SF_zero in H.
  unfold nonfinite. rewrite div_spec. unfold SF64div.
  destruct (Prim2SF a) as [sa|sa| |sa ma ea],
           (Prim2SF s) as [ss|ss| |ss ms es];
    try destruct ss; simpl in *; try reflexivity; discriminate H.
Qed.

Section ChromaticityFloat.
Variable exp_f : float -> float.
Variable pow_f : float -> nat -> float.
Let AFl : Arith float := Arith_float exp_f pow_f.
Local Existing Instance AFl.

(** X6.  With fewer than two samples there is nothing to integrate: the result
    is [nan, nan, 0]. *)
Theorem chromaticity_too_few_samples :
  forall (spectral radiance xbar ybar zbar : list float),
    length spectral <= 1 ->
    length radiance = length spectral ->
    length xbar = length spectral ->
    length ybar = length spectral ->
    length zbar = length spectral ->
    @chromaticityforSpectralL float AFl spectral radiance xbar ybar zbar
    = ret [nan; nan; 0%float].
Proof.
  intros spectral radiance xbar ybar zbar Hn Hr Hx Hy Hz.
  destruct spectral as [|s0 [|]]; simpl in Hn; try lia;
    destruct radiance as [|r0 [|]]; try discriminate;
    destruct xbar as [|x0 [|]]; try discriminate;
    destruct ybar as [|y0 [|]]; try discriminate;
    destruct zbar as [|z0 [|]]; try discriminate; reflexivity.
Qed.

End ChromaticityFloat.

Section ChromaticityZeroSum.
Variable exp_f : float -> float.
Variable pow_f : float -> nat -> float.
Variable sum_f : list float -> float.
Let AFs : Arith float := Arith_float_with exp_f pow_f sum_f.
Local Existing Instance AFs.

(** X5.  On binary64, in whatever order [sum] adds the terms, for a grid and
    four curves of one length: the three calls of [trapz], on
    [radiance * xbar], [radiance * ybar] and [radiance * zbar] over the
    grid, return three numbers X, Y, Z without raising, the function
    returns [X / (X + Y + Z), Y / (X + Y + Z), Y] computed from them, and
    when [X + Y + Z] is zero (as a float64 value) the two chromaticity
    coordinates are NaN or infinite. *)
Theorem chromaticity_zero_sum :
  forall (spectral radiance xbar ybar zbar : list float),
    length radiance = length spectral ->
    length xbar = length spectral ->
    length ybar = length spectral ->
    length zbar = length spectral ->
    exists X Y Z : float,
      @trapz float AFs (map2 PrimFloat.mul radiance xbar) spectral = ret X /\
      @trapz float AFs (map2 PrimFloat.mul radiance ybar) spectral = ret Y /\
      @trapz float AFs (map2 PrimFloat.mul radiance zbar) spectral = ret Z /\
      @chromaticityforSpectralL float AFs spectral radiance xbar ybar zbar
      = ret [(X / (X + Y + Z))%float; (Y / (X + Y + Z))%float; Y] /\
      ((X + Y + Z =? 0)%float = true ->
       nonfinite (X / (X + Y + Z)) = true /\
       nonfinite (Y / (X + Y + Z)) = true).
Proof.
  intros spectral radiance xbar ybar zbar Hr Hx Hy Hz.
  unfold chromaticityforSpectralL.
  assert (T : forall curve, length curve = length spectral ->
                exists v, @trapz float AFs (map2 fmul radiance curve) spectral
                          = ret v).
  { intros curve Hc. apply trapz_cases. left.
    rewrite length_map2 by congruence. congruence. }
  destruct (T xbar Hx) as [X EX]. destruct (T ybar Hy) as [Y EY].
  destruct (T zbar Hz) as [Z EZ].
  exists X, Y, Z.
  split; [exact EX|]. split; [exact EY|]. split; [exact EZ|].
  rewrite col_broadcast_eq, bind_ret_l by congruence.
  rewrite EX, bind_ret_l.
  rewrite col_broadcast_eq, bind_ret_l by congruence.
  rewrite EY, bind_ret_l.
  rewrite col_broadcast_eq, bind_ret_l by congruence.
  rewrite EZ, bind_ret_l.
  split; [reflexivity|].
  intros H0. split; apply div_by_zero_nonfinite; exact H0.
Qed.

End ChromaticityZeroSum.

Lemma chromaticity_zero_sum_witness :
  exists X Y Z : float,
    @trapz float (Arith_float_with (fun x => x) (fun x _ => x) sum_in_order)
       (map2 PrimFloat.mul [0%float; 0%float; 0%float]
             [1%float; 2%float; 1%float])
       [1%float; 2%float; 3%float] = ret X /\
    @trapz float (Arith_float_with (fun x => x) (fun x _ => x) sum_in_order)
       (map2 PrimFloat.mul [0%float; 0%float; 0%float]
             [1%float; 2%float; 4%float])
       [1%float; 2%float; 3%float] = ret Y /\
    @trapz float (Arith_float_with (fun x => x) (fun x _ => x) sum_in_order)
       (map2 PrimFloat.mul [0%float; 0%float; 0%float]
             [0%float; 0%float; 1%float])
       [1%float; 2%float; 3%float] = ret Z /\
    @chromaticityforSpectralL float
       (Arith_float_with (fun x => x) (fun x _ => x) sum_in_order)
       [1%float; 2%float; 3%float] [0%float; 0%float; 0%float]
       [1%float; 2%float; 1%float] [1%float; 2%float; 4%float]
       [0%float; 0%float; 1%float]
    = ret [(X / (X + Y + Z))%float; (Y / (X + Y + Z))%float; Y] /\
    ((X + Y + Z =? 0)%float = true ->
     nonfinite (X / (X + Y + Z)) = true /\
     nonfinite (Y / (X + Y + Z)) = true).
Proof.
  exact (@chromaticity_zero_sum (fun x => x) (fun x _ => x) sum_in_order
           [1%float; 2%float; 3%float] [0%float; 0%float; 0%float]
           [1%float; 2%float; 1%float] [1%float; 2%float; 4%float]
           [0%float; 0%float; 1%float] eq_refl eq_refl eq_refl eq_refl).
Defined.

Lemma chromaticity_too_few_samples_witness :
  @chromaticityforSpectralL float
     (Arith_float (fun x => x) (fun x _ => x))
     [1%float] [2%float] [3%float] [4%float] [5%float]
  = ret [nan; nan; 0%float].
Proof.
  refine (@chromaticity_too_few_samples (fun x => x) (fun x _ => x)
            [1%float] [2%float] [3%float] [4%float] [5%float]
            _ eq_refl eq_refl eq_refl eq_refl).
  simpl. lia.
Defined.

(* ================================================================== *)
(** * The returned elements, in order *)

Section ReturnedValues.
Context {F : Type} {AF : Arith F}.
Variable f : F -> F -> F.

(** Whatever the output shape, the returned numbers are the values of the
    element-wise function listed spectral value by spectral value. *)
Lemma pointwise_values_in_order (w t : pyobj F) :
  flat w -> flat t -> elements t <> [] ->
  exists r, pointwise f w t = ret r /\
            values r = map (fun p => f (fst p) (snd p))
                           (out_grid (elements w) (elements t)).
Proof.
  intros Hw Ht Hne.
  assert (Hog : forall ss ts,
             map (fun p => f (fst p) (snd p)) (@out_grid F ss ts)
             = flat_map (fun s => map (fun t' => f s t') ts) ss).
  { intros ss ts. unfold out_grid.
    induction ss as [|s ss IH]; simpl; [reflexivity|].
    now rewrite map_app, map_map, IH. }
  rewrite Hog.
  destruct (Nat.eq_dec (length (elements w)) 1) as [Nw|Nw];
    destruct (Nat.eq_dec (length (elements t)) 1) as [Nt|Nt].
  - destruct (elements w) as [|s0 [|]] eqn:Ew; try discriminate.
    destruct (elements t) as [|t0 [|]] eqn:Et; try discriminate.
    eexists; split; [apply (pointwise_single_single f Hw Ht Ew Et)|].
    reflexivity.
  - destruct (elements w) as [|s0 [|]] eqn:Ew; try discriminate.
    eexists; split; [apply (pointwise_single_multi f Hw Ht Ew Nt)|].
    simpl. now rewrite app_nil_r.
  - destruct (elements t) as [|t0 [|]] eqn:Et; try discriminate.
    eexists; split; [apply (pointwise_multi_single f Hw Ht Nw Et)|].
    simpl. induction (elements w); simpl; [reflexivity | now f_equal].
  - assert (Zt : length (elements t) <> 0)
      by (destruct (elements t); [congruence | discriminate]).
    eexists; split; [apply (pointwise_multi_multi f Hw Ht Nw Nt Zt)|].
    reflexivity.
Qed.

End ReturnedValues.

Section ScalarCalls.
Context {F : Type} {AF : Arith F}.
Variable sc : SciConst F.

(** A call on two numbers returns the value of the element-wise function. *)
Lemma scalar_result_at (fam : family) (q : quantity) (d : domain)
      (s T default : F) :
  scalar_result (evaluator sc fam q d (PyFloat s) (PyFloat T)) default
  = evaluator_at sc fam q d s T.
Proof.
  unfold scalar_result. rewrite evaluator_pointwise.
  now rewrite (@pointwise_single_single F AF _ (PyFloat s) (PyFloat T) s T)
    by reflexivity.
Qed.

End ScalarCalls.

(* ================================================================== *)
(** * Calls on two numbers and on two lists *)

Lemma map_out_grid {X Y} (f : X -> X -> Y) (ss ts : list X) :
  map (fun p => f (fst p) (snd p)) (out_grid ss ts)
  = flat_map (fun s => map (fun t => f s t) ts) ss.
Proof.
  unfold out_grid. induction ss as [|s ss IH]; simpl; [reflexivity|].
  now rewrite map_app, map_map, IH.
Qed.

Section OnLists.
Context {F : Type} {AF : Arith F}.
Variable sc : SciConst F.

Lemma map_grid {Y} (f : F -> F -> Y) (ss ts : list F) :
  map (fun p => f (fst p) (snd p)) (grid ss ts)
  = flat_map (fun t => map (fun s => f s t) ss) ts.
Proof.
  unfold grid. induction ts as [|t ts IH]; simpl; [reflexivity|].
  now rewrite map_app, map_map, IH.
Qed.

(** A call on two numbers returns a number, the value of the element-wise
    function. *)
Lemma evaluator_on_numbers (fam : family) (q : quantity) (d : domain)
      (s T : F) :
  outcome (evaluator sc fam q d (PyFloat s) (PyFloat T))
  = inr (PyFloat (evaluator_at sc fam q d s T)).
Proof.
  rewrite evaluator_pointwise.
  now rewrite (@pointwise_single_single F AF _ (PyFloat s) (PyFloat T) s T)
    by reflexivity.
Qed.

(** A call on two lists, with at least one temperature, returns the values
    of the element-wise function, spectral value by spectral value and,
    for each, temperature by temperature. *)
Lemma evaluator_on_lists (fam : family) (q : quantity) (d : domain)
      (ss ts : list F) :
  ts <> [] ->
  exists r,
    outcome (evaluator sc fam q d (PyList ss) (PyList ts)) = inr r /\
    values r = flat_map (fun s => map (evaluator_at sc fam q d s) ts) ss.
Proof.
  intros Hne.
  destruct (@pointwise_values_in_order F AF (evaluator_at sc fam q d)
              (PyList ss) (PyList ts) eq_refl eq_refl Hne) as (r & Hr & Hv).
  exists r. rewrite evaluator_pointwise, Hr. split; [reflexivity|].
  rewrite Hv. apply map_out_grid.
Qed.

End OnLists.

Lemma length_flat_map_rows {X Y} (f : X -> X -> Y) (ss ts : list X) :
  length (flat_map (fun s => map (f s) ts) ss) = length ss * length ts.
Proof.
  induction ss as [|s ss IH]; simpl; [reflexivity|].
  now rewrite length_app, length_map, IH.
Qed.

Lemma flat_map_rows_ext {X Y} (f g : X -> X -> Y) (ss ts : list X) :
  (forall s t, In s ss -> In t ts -> f s t = g s t) ->
  flat_map (fun s => map (f s) ts) ss = flat_map (fun s => map (g s) ts) ss.
Proof.
  intros H. induction ss as [|s ss IH]; simpl; [reflexivity|].
  f_equal.
  - apply map_ext_in. intros t Ht. apply H; simpl; auto.
  - apply IH. intros s' t Hs Ht. apply H; simpl; auto.
Qed.

Lemma Forall_flat_map_rows {X Y} (P : Y -> Prop) (f : X -> X -> Y)
      (ss ts : list X) :
  (forall s t, In s ss -> In t ts -> P (f s t)) ->
  Forall P (flat_map (fun s => map (f s) ts) ss).
Proof.
  intros H. rewrite Forall_forall. intros v Hv.
  apply in_flat_map in Hv. destruct Hv as (s & Hs & Hv).
  apply in_map_iff in Hv. destruct Hv as (t & <- & Ht). auto.
Qed.

(** The exponent at the CODATA constants, as a fraction *)
Lemma codata2010_exponent (d : domain) (s T : R) :
  (0 < s)%R -> (0 < T)%R ->
  spec_exponent (pconst codata2010_R) d s T
  = match d with
    | wavelength => 662606957 * 299792458 / (13806488 * 10 ^ 6) / (s * T)
    | wavenumber => 662606957 * 299792458 / (13806488 * 10 ^ 10) * s / T
    | frequency => 662606957 / (13806488 * 10 ^ 12) * s / T
    end%R.
Proof.
  intros Hs HT. unfold spec_exponent.
  destruct d;
    cbn [c2l c2n c2f pconst PlanckConstants_init fmul fdiv fromZ Arith_R
         codata2010_R const_h const_c const_k];
    field; repeat split; lra.
Qed.


(* ================================================================== *)
(** * Sign, and the relations between the six formulas (real numbers) *)

Section PlanckReal.
Variable sc : SciConst R.
Hypothesis Hsc : positive_constants sc.
Local Open Scope R_scope.

Lemma c1_positive :
  0 < c1el (pconst sc) /\ 0 < c1en (pconst sc) /\ 0 < c1ef (pconst sc) /\
  0 < c1ql (pconst sc) /\ 0 < c1qn (pconst sc) /\ 0 < c1nf (pconst sc).
Proof.
  destruct Hsc as (Hh & Hc & Hk & Hpi).
  cbn [c1el c1en c1ef c1ql c1qn c1nf pconst PlanckConstants_init
       fmul fdiv fpow fromZ Arith_R].
  assert (H2pi : 0 < 2 * const_pi sc) by lra.
  assert (Hcc : 0 < const_c sc * const_c sc) by now apply Rmult_lt_0_compat.
  assert (P4 : 0 < 1000000 ^ (5 - 1)) by (apply pow_lt; lra).
  assert (P3 : 0 < 1000000 ^ (4 - 1)) by (apply pow_lt; lra).
  assert (Z3 : 0 < IZR (100 ^ 3)) by (apply IZR_lt; reflexivity).
  assert (Z2 : 0 < IZR (100 ^ 2)) by (apply IZR_lt; reflexivity).
  assert (Hem : 0 < 2 * const_pi sc * const_h sc * const_c sc * const_c sc)
    by (repeat apply Rmult_lt_0_compat; first [assumption | lra]).
  assert (Hqm : 0 < 2 * const_pi sc * const_c sc)
    by (apply Rmult_lt_0_compat; assumption).
  repeat split.
  - now apply Rmult_lt_0_compat.
  - apply Rmult_lt_0_compat; [now apply Rmult_lt_0_compat | lra].
  - apply Rdiv_lt_0_compat; [now apply Rmult_lt_0_compat | assumption].
  - now apply Rmult_lt_0_compat.
  - apply Rmult_lt_0_compat; [now apply Rmult_lt_0_compat | lra].
  - now apply Rdiv_lt_0_compat.
Qed.

Lemma spec_eta_pos (q : quantity) (d : domain) (s T : R) :
  0 < s -> 0 < T -> 0 < spec_eta (pconst sc) q d s T.
Proof.
  intros Hs HT.
  destruct c1_positive as (Hel & Hen & Hef & Hql & Hqn & Hnf).
  destruct (spec_exponent_pos d Hsc Hs HT) as [_ He].
  unfold spec_eta.
  destruct q, d; apply Rdiv_lt_0_compat; try assumption;
    (apply Rmult_lt_0_compat; [| first [assumption | apply pow_lt; exact Hs]]);
    first [assumption | apply pow_lt; exact Hs].
Qed.

Lemma spec_exitance_nonneg (q : quantity) (d : domain) (s T : R) :
  0 < s -> 0 < T -> 0 <= spec_exitance (pconst sc) q d s T.
Proof.
  intros Hs HT. unfold spec_exitance.
  destruct (Rle_dec _ _); [lra|].
  apply Rlt_le. now apply spec_eta_pos.
Qed.

Lemma spec_derivative_pos (q : quantity) (d : domain) (s T : R) :
  0 < s -> 0 < T -> 0 < spec_derivative (pconst sc) q d s T.
Proof.
  intros Hs HT. unfold spec_derivative, spec_factor.
  destruct (spec_exponent_pos d Hsc Hs HT) as [Hx He].
  apply Rmult_lt_0_compat; [| now apply spec_eta_pos].
  apply Rdiv_lt_0_compat.
  - apply Rmult_lt_0_compat; [exact Hx | apply exp_pos].
  - now apply Rmult_lt_0_compat.
Qed.

End PlanckReal.

(** X7.  In exact real arithmetic, with positive constants, on two lists of
    floating-point inputs with at least one temperature, all pairs inside
    the range of the family (the exitance range for the exitance functions,
    the working range for the derivative functions): the function returns
    one element for each pair, every element an exitance function returns
    is non-negative and every element a derivative function returns is
    strictly positive; on two numbers the number returned has that sign. *)
Theorem exitance_nonneg_derivative_pos :
  forall (sc : SciConst R) (fam : family) (q : quantity) (d : domain)
         (ss ts : list R),
    positive_constants sc ->
    ts <> [] ->
    (forall s T, In s ss -> In T ts ->
                 family_range (pconst sc) fam d s T) ->
    (exists r,
        outcome (evaluator sc fam q d (PyList ss) (PyList ts)) = inr r /\
        length (values r) = (length ss * length ts)%nat /\
        Forall (match fam with
                | exitance => Rle 0
                | derivative => Rlt 0
                end) (values r)) /\
    (forall s T, In s ss -> In T ts ->
        exists v,
          outcome (evaluator sc fam q d (PyFloat s) (PyFloat T))
          = inr (PyFloat v) /\
          match fam with
          | exitance => (0 <= v)%R
          | derivative => (0 < v)%R
          end).
Proof.
  intros sc fam q d ss ts Hsc Hne Hr.
  assert (Hpos : forall s T, In s ss -> In T ts -> (0 < s /\ 0 < T)%R).
  { intros s T Hs HT. specialize (Hr s T Hs HT).
    assert (He : exitance_range (pconst sc) d s T)
      by (destruct fam; [exact Hr | exact (proj1 Hr)]).
    destruct He as (Hsp & HT0 & _). split; [|exact HT0].
    destruct d; cbn [spectral_span] in Hsp; lra. }
  assert (Hsign : forall s T, In s ss -> In T ts ->
             match fam with
             | exitance => Rle 0
             | derivative => Rlt 0
             end (evaluator_at sc fam q d s T)).
  { intros s T Hs HT. destruct (Hpos s T Hs HT) as [Hs0 HT0].
    destruct fam; cbn [evaluator_at].
    - rewrite exitance_at_spec. now apply spec_exitance_nonneg.
    - rewrite derivative_at_spec. now apply spec_derivative_pos. }
  split.
  - destruct (evaluator_on_lists sc fam q d ss Hne) as (r & Er & Hv).
    exists r. split; [exact Er|]. rewrite Hv. split.
    + apply length_flat_map_rows.
    + apply Forall_flat_map_rows. exact Hsign.
  - intros s T Hs HT. exists (evaluator_at sc fam q d s T).
    split; [apply evaluator_on_numbers|].
    specialize (Hsign s T Hs HT). destruct fam; exact Hsign.
Qed.

Lemma exitance_nonneg_derivative_pos_witness :
  exists r, outcome (evaluator codata2010_R derivative radiant wavelength
                               (PyList [1%R; 2%R]) (PyList [300%R]))
            = inr r /\
            length (values r) = 2%nat /\
            Forall (Rlt 0) (values r).
Proof.
  assert (H : forall s T, In s [1%R; 2%R] -> In T [300%R] ->
                family_range (pconst codata2010_R) derivative wavelength
                             s T).
  { intros s T Hs HT.
    destruct HT as [<-|[]]. destruct Hs as [<-|[<-|[]]];
      unfold family_range, working_range, exitance_range, spectral_span;
      rewrite codata2010_exponent by lra; lra. }
  exact (proj1 (@exitance_nonneg_derivative_pos codata2010_R derivative
                  radiant wavelength [1%R; 2%R] [300%R]
                  codata2010_R_positive ltac:(discriminate) H)).
Defined.

Section FormulaRelations.
Variable sc : SciConst R.
Hypothesis Hsc : positive_constants sc.
Local Open Scope R_scope.

Lemma exp_minus_1_nonzero (d : domain) (s T : R) :
  0 < s -> 0 < T -> exp (spec_exponent (pconst sc) d s T) - 1 <> 0.
Proof.
  intros Hs HT. destruct (spec_exponent_pos d Hsc Hs HT) as [_ H]. lra.
Qed.

(** Radiant quantity = photon-rate quantity times the photon energy, for
    the unguarded formula. *)
Lemma spec_eta_photon_energy (d : domain) (s T : R) :
  0 < s -> 0 < T ->
  spec_eta (pconst sc) radiant d s T
  = photon_energy sc d s * spec_eta (pconst sc) photon_rate d s T.
Proof.
  intros Hs HT. pose proof (exp_minus_1_nonzero d Hs HT) as He.
  destruct Hsc as (Hh & Hc & Hk & Hpi).
  unfold spec_eta, photon_energy.
  set (E := exp (spec_exponent (pconst sc) d s T) - 1) in *. clearbody E.
  destruct d;
    cbn [c1el c1en c1ef c1ql c1qn c1nf pconst PlanckConstants_init
         fmul fdiv fpow fromZ Arith_R Nat.sub];
    change (100 ^ 3)%Z with 1000000%Z; change (100 ^ 2)%Z with 10000%Z;
    field; repeat split; lra.
Qed.

Lemma evaluator_at_photon_energy (fam : family) (d : domain) (s T : R) :
  0 < s -> 0 < T ->
  evaluator_at sc fam radiant d s T
  = photon_energy sc d s * evaluator_at sc fam photon_rate d s T.
Proof.
  intros Hs HT. destruct fam; cbn [evaluator_at].
  - rewrite !exitance_at_spec. unfold spec_exitance.
    destruct (Rle_dec _ _); [ring | now apply spec_eta_photon_energy].
  - rewrite !derivative_at_spec. unfold spec_derivative.
    rewrite (spec_eta_photon_energy d Hs HT). ring.
Qed.

(** The same point seen from the three domains: a wavelength [l] in
    micrometres is the wavenumber [10^4 / l] per centimetre and the
    frequency [c 10^6 / l]; the exponents agree and the formulas differ by
    the factor between the spectral intervals. *)
Lemma spec_domain_conversion (q : quantity) (l T : R) :
  0 < l -> 0 < T ->
  (spec_exponent (pconst sc) wavelength l T
   = spec_exponent (pconst sc) wavenumber (10 ^ 4 / l) T /\
   spec_exponent (pconst sc) wavelength l T
   = spec_exponent (pconst sc) frequency (const_c sc * 10 ^ 6 / l) T) /\
  (spec_eta (pconst sc) q wavelength l T
   = spec_eta (pconst sc) q wavenumber (10 ^ 4 / l) T * (10 ^ 4 / l ^ 2) /\
   spec_eta (pconst sc) q wavelength l T
   = spec_eta (pconst sc) q frequency (const_c sc * 10 ^ 6 / l) T
     * (const_c sc * 10 ^ 6 / l ^ 2)).
Proof.
  intros Hl HT. destruct Hsc as (Hh & Hc & Hk & Hpi).
  assert (Ex : spec_exponent (pconst sc) wavelength l T
               = spec_exponent (pconst sc) wavenumber (10 ^ 4 / l) T /\
               spec_exponent (pconst sc) wavelength l T
               = spec_exponent (pconst sc) frequency
                               (const_c sc * 10 ^ 6 / l) T).
  { unfold spec_exponent.
    cbn [c2l c2n c2f pconst PlanckConstants_init fmul fdiv fromZ Arith_R].
    split; field; repeat split; lra. }
  split; [exact Ex|]. destruct Ex as [En Ef].
  pose proof (exp_minus_1_nonzero wavelength Hl HT) as He.
  unfold spec_eta. rewrite <- En, <- Ef.
  set (E := exp (spec_exponent (pconst sc) wavelength l T) - 1) in *.
  clearbody E.
  destruct q;
    cbn [c1el c1en c1ef c1ql c1qn c1nf pconst PlanckConstants_init
         fmul fdiv fpow fromZ Arith_R Nat.sub];
    change (100 ^ 3)%Z with 1000000%Z; change (100 ^ 2)%Z with 10000%Z;
    split; field; repeat split; lra.
Qed.

Lemma evaluator_at_domain_conversion (fam : family) (q : quantity) (l T : R) :
  0 < l -> 0 < T ->
  evaluator_at sc fam q wavelength l T
  = evaluator_at sc fam q wavenumber (10 ^ 4 / l) T * (10 ^ 4 / l ^ 2) /\
  evaluator_at sc fam q wavelength l T
  = evaluator_at sc fam q frequency (const_c sc * 10 ^ 6 / l) T
    * (const_c sc * 10 ^ 6 / l ^ 2).
Proof.
  intros Hl HT.
  destruct (spec_domain_conversion q Hl HT) as [[En Ef] [Hn Hf]].
  destruct fam; cbn [evaluator_at].
  - rewrite !exitance_at_spec. unfold spec_exitance.
    rewrite <- En, <- Ef.
    destruct (Rle_dec _ _); split; try ring; assumption.
  - rewrite !derivative_at_spec. unfold spec_derivative.
    rewrite <- En, <- Ef, Hn at 1. split; [ring|]. rewrite Hf. ring.
Qed.

End FormulaRelations.

Lemma in_out_grid {X} (p : X * X) (ss ts : list X) :
  In p (out_grid ss ts) -> In (fst p) ss /\ In (snd p) ts.
Proof.
  unfold out_grid. intros H. apply in_flat_map in H.
  destruct H as (s & Hs & H). apply in_map_iff in H.
  destruct H as (t & <- & Ht). auto.
Qed.

(** X8.  In exact real arithmetic, with positive constants, on two lists of
    floating-point inputs with at least one temperature, all pairs inside
    the range of the family: the radiant evaluator and the photon-rate
    evaluator of one domain return one element for each pair, and each
    element of the first is the element of the second multiplied by the
    energy of a photon at that spectral value.  This holds for the
    exitance functions and for the derivative functions. *)
Theorem radiant_is_photon_rate_times_energy :
  forall (sc : SciConst R) (fam : family) (d : domain) (ss ts : list R),
    positive_constants sc ->
    ts <> [] ->
    (forall s T, In s ss -> In T ts ->
                 family_range (pconst sc) fam d s T) ->
    exists r r',
      outcome (evaluator sc fam radiant d (PyList ss) (PyList ts)) = inr r /\
      outcome (evaluator sc fam photon_rate d (PyList ss) (PyList ts))
      = inr r' /\
      length (values r') = (length ss * length ts)%nat /\
      values r = map2 (fun p u => (photon_energy sc d (fst p) * u)%R)
                      (out_grid ss ts) (values r').
Proof.
  intros sc fam d ss ts Hsc Hne Hr.
  assert (Hpos : forall s T, In s ss -> In T ts -> (0 < s /\ 0 < T)%R).
  { intros s T Hs HT. specialize (Hr s T Hs HT).
    assert (He : exitance_range (pconst sc) d s T)
      by (destruct fam; [exact Hr | exact (proj1 Hr)]).
    destruct He as (Hsp & HT0 & _). split; [|exact HT0].
    destruct d; cbn [spectral_span] in Hsp; lra. }
  destruct (evaluator_on_lists sc fam radiant d ss Hne) as (r & Er & Hv).
  destruct (evaluator_on_lists sc fam photon_rate d ss Hne)
    as (r' & Er' & Hv').
  exists r, r'. split; [exact Er|]. split; [exact Er'|].
  rewrite Hv, Hv'. split; [apply length_flat_map_rows|].
  rewrite <- !(map_out_grid (evaluator_at sc fam _ d)).
  rewrite <- (map_id (out_grid ss ts)) at 2.
  rewrite map2_map. apply map_ext_in. intros p Hp.
  apply in_out_grid in Hp. destruct Hp as [Hs HT].
  destruct (Hpos _ _ Hs HT).
  apply evaluator_at_photon_energy; auto.
Qed.

Lemma radiant_is_photon_rate_times_energy_witness :
  exists r r',
    outcome (evaluator codata2010_R exitance radiant wavelength
                       (PyList [1%R; 2%R]) (PyList [300%R])) = inr r /\
    outcome (evaluator codata2010_R exitance photon_rate wavelength
                       (PyList [1%R; 2%R]) (PyList [300%R])) = inr r' /\
    length (values r') = 2%nat /\
    values r = map2 (fun p u => (photon_energy codata2010_R wavelength
                                               (fst p) * u)%R)
                    (out_grid [1%R; 2%R] [300%R]) (values r').
Proof.
  assert (H : forall s T, In s [1%R; 2%R] -> In T [300%R] ->
                family_range (pconst codata2010_R) exitance wavelength
                             s T).
  { intros s T Hs HT.
    destruct HT as [<-|[]]. destruct Hs as [<-|[<-|[]]];
      unfold family_range, exitance_range, spectral_span;
      rewrite codata2010_exponent by lra; lra. }
  exact (@radiant_is_photon_rate_times_energy codata2010_R exitance
           wavelength [1%R; 2%R] [300%R] codata2010_R_positive
           ltac:(discriminate) H).
Defined.

(** X9.  In exact real arithmetic, with positive constants, for
    floating-point inputs: a wavelength [l] (micrometres) and a
    temperature, the wavenumber [10^4 / l] and the frequency [c 10^6 / l],
    all three inside the range of the family.  The three calls return
    numbers; the number at the wavelength equals the number of the
    wavenumber-domain function times [10^4 / l^2] and the number of the
    frequency-domain function times [c 10^6 / l^2]: the three domains
    describe one spectral density.  This holds for the exitance and for the
    derivative functions. *)
Theorem spectral_domains_agree :
  forall (sc : SciConst R) (fam : family) (q : quantity) (l T : R),
    positive_constants sc ->
    family_range (pconst sc) fam wavelength l T ->
    family_range (pconst sc) fam wavenumber (10 ^ 4 / l)%R T ->
    family_range (pconst sc) fam frequency (const_c sc * 10 ^ 6 / l)%R T ->
    exists vl vn vf : R,
      outcome (evaluator sc fam q wavelength (PyFloat l) (PyFloat T))
      = inr (PyFloat vl) /\
      outcome (evaluator sc fam q wavenumber
                         (PyFloat (10 ^ 4 / l)%R) (PyFloat T))
      = inr (PyFloat vn) /\
      outcome (evaluator sc fam q frequency
                         (PyFloat (const_c sc * 10 ^ 6 / l)%R) (PyFloat T))
      = inr (PyFloat vf) /\
      vl = (vn * (10 ^ 4 / l ^ 2))%R /\
      vl = (vf * (const_c sc * 10 ^ 6 / l ^ 2))%R.
Proof.
  intros sc fam q l T Hsc Hl _ _.
  assert (He : exitance_range (pconst sc) wavelength l T)
    by (destruct fam; [exact Hl | exact (proj1 Hl)]).
  destruct He as (Hsp & HT0 & _). cbn [spectral_span] in Hsp.
  assert (Hl0 : (0 < l)%R) by lra.
  do 3 eexists. rewrite !evaluator_on_numbers.
  split; [reflexivity|]. split; [reflexivity|]. split; [reflexivity|].
  now apply evaluator_at_domain_conversion.
Qed.

Lemma spectral_domains_agree_witness :
  exists vl vn vf : R,
    outcome (evaluator codata2010_R exitance radiant wavelength
                       (PyFloat 10%R) (PyFloat 300%R))
    = inr (PyFloat vl) /\
    outcome (evaluator codata2010_R exitance radiant wavenumber
                       (PyFloat (10 ^ 4 / 10)%R) (PyFloat 300%R))
    = inr (PyFloat vn) /\
    outcome (evaluator codata2010_R exitance radiant frequency
                       (PyFloat (const_c codata2010_R * 10 ^ 6 / 10)%R)
                       (PyFloat 300%R))
    = inr (PyFloat vf) /\
    vl = (vn * (10 ^ 4 / 10 ^ 2))%R /\
    vl = (vf * (const_c codata2010_R * 10 ^ 6 / 10 ^ 2))%R.
Proof.
  refine (@spectral_domains_agree codata2010_R exitance radiant 10%R 300%R
            codata2010_R_positive _ _ _);
    unfold family_range, exitance_range, spectral_span;
    cbn [const_c codata2010_R];
    (rewrite codata2010_exponent; [lra | lra | lra]).
Defined.

(* ================================================================== *)
(** * The derivative functions differentiate the exitance functions *)

Section TemperatureDerivative.
Local Open Scope R_scope.

(** The derivative of [A / (exp(B / T) - 1)] with respect to [T]. *)
Lemma planck_shape_derivative (A B T : R) :
  0 < T -> exp (B / T) - 1 <> 0 ->
  derivable_pt_lim (fun T' => A / (exp (B / T') - 1)) T
                   (A * exp (B / T) * (B / T ^ 2) / (exp (B / T) - 1) ^ 2).
Proof.
  intros HT He.
  assert (H1 : derivable_pt_lim (fct_cte B / id)%F T (- B / T ^ 2)).
  { replace (- B / T ^ 2) with ((0 * id T - 1 * fct_cte B T) / Rsqr (id T))
      by (unfold id, fct_cte, Rsqr; field; lra).
    apply derivable_pt_lim_div.
    - apply derivable_pt_lim_const.
    - apply derivable_pt_lim_id.
    - unfold id; lra. }
  assert (H2 : derivable_pt_lim (comp exp (fct_cte B / id)%F) T
                                (exp (B / T) * (- B / T ^ 2))).
  { apply derivable_pt_lim_comp; [exact H1|].
    apply derivable_pt_lim_exp. }
  assert (H3 : derivable_pt_lim
                 (comp exp (fct_cte B / id)%F - fct_cte 1)%F T
                 (exp (B / T) * (- B / T ^ 2) - 0)).
  { apply derivable_pt_lim_minus; [exact H2 | apply derivable_pt_lim_const]. }
  assert (H4 : derivable_pt_lim
                 (fct_cte A / (comp exp (fct_cte B / id)%F - fct_cte 1))%F T
                 ((0 * (exp (B / T) - 1)
                   - (exp (B / T) * (- B / T ^ 2) - 0) * A)
                  / Rsqr (exp (B / T) - 1))).
  { apply (derivable_pt_lim_div (fct_cte A)
             (comp exp (fct_cte B / id)%F - fct_cte 1)%F T 0
             (exp (B / T) * (- B / T ^ 2) - 0)).
    - apply derivable_pt_lim_const.
    - exact H3.
    - exact He. }
  replace (A * exp (B / T) * (B / T ^ 2) / (exp (B / T) - 1) ^ 2)
    with ((0 * (exp (B / T) - 1) - (exp (B / T) * (- B / T ^ 2) - 0) * A)
          / Rsqr (exp (B / T) - 1))
    by (unfold Rsqr; field; split; [lra | exact He]).
  exact H4.
Qed.

Variable sc : SciConst R.
Hypothesis Hsc : positive_constants sc.

Lemma spec_eta_shape (q : quantity) (d : domain) (s T : R) :
  spec_exponent (pconst sc) d s T = planck_slope (pconst sc) d s / T /\
  spec_eta (pconst sc) q d s T
  = planck_amplitude (pconst sc) q d s
    / (exp (planck_slope (pconst sc) d s / T) - 1).
Proof.
  assert (Ex : spec_exponent (pconst sc) d s T
               = planck_slope (pconst sc) d s / T).
  { destruct d; unfold spec_exponent, planck_slope; try reflexivity.
    unfold Rdiv. rewrite Rinv_mult. ring. }
  split; [exact Ex|].
  unfold spec_eta. rewrite Ex.
  destruct q, d; unfold planck_amplitude; try reflexivity;
    unfold Rdiv; rewrite Rinv_mult; ring.
Qed.

(** The unguarded formula has [factor * eta] as its derivative with respect
    to the temperature. *)
Lemma spec_eta_derivative (q : quantity) (d : domain) (s T : R) :
  0 < s -> 0 < T ->
  derivable_pt_lim (fun T' => spec_eta (pconst sc) q d s T') T
                   (spec_derivative (pconst sc) q d s T).
Proof.
  intros Hs HT.
  destruct (spec_exponent_pos d Hsc Hs HT) as [_ He].
  destruct (spec_eta_shape q d s T) as [Ex Eeta].
  set (A := planck_amplitude (pconst sc) q d s) in *.
  set (B := planck_slope (pconst sc) d s) in *.
  apply derivable_pt_lim_ext
    with (f := fun T' => A / (exp (B / T') - 1)).
  { intros T'. symmetry. apply spec_eta_shape. }
  replace (spec_derivative (pconst sc) q d s T)
    with (A * exp (B / T) * (B / T ^ 2) / (exp (B / T) - 1) ^ 2).
  - apply planck_shape_derivative; [exact HT|]. rewrite <- Ex. lra.
  - unfold spec_derivative, spec_factor. rewrite Eeta, Ex.
    rewrite Ex in He. field. split; lra.
Qed.

End TemperatureDerivative.

Section DerivativeOfExitance.
Variable sc : SciConst R.
Hypothesis Hsc : positive_constants sc.
Local Open Scope R_scope.

Lemma planck_slope_pos (d : domain) (s : R) :
  0 < s -> 0 < planck_slope (pconst sc) d s.
Proof.
  intros Hs.
  destruct (spec_exponent_pos d Hsc Hs Rlt_0_1) as [Hx _].
  rewrite (proj1 (spec_eta_shape sc radiant d s 1)) in Hx.
  unfold Rdiv in Hx. rewrite Rinv_1, Rmult_1_r in Hx. exact Hx.
Qed.

Lemma div_lt_elim (a b c : R) : 0 < c -> a / c < b -> a < b * c.
Proof.
  intros Hc H. replace a with (a / c * c) by (field; lra).
  now apply Rmult_lt_compat_r.
Qed.

Lemma div_lt_intro (a b c : R) : 0 < c -> a < b * c -> a / c < b.
Proof.
  intros Hc H. replace b with (b * c / c) by (field; lra).
  unfold Rdiv. apply Rmult_lt_compat_r; [now apply Rinv_0_lt_compat | lra].
Qed.

Lemma lt_div_elim (a b c : R) : 0 < c -> b < a / c -> b * c < a.
Proof.
  intros Hc H. replace a with (a / c * c) by (field; lra).
  now apply Rmult_lt_compat_r.
Qed.

Lemma lt_div_intro (a b c : R) : 0 < c -> b * c < a -> b < a / c.
Proof.
  intros Hc H. replace b with (b * c / c) by (field; lra).
  unfold Rdiv. apply Rmult_lt_compat_r; [now apply Rinv_0_lt_compat | lra].
Qed.

(** Where the exponent is below / above the limit, in terms of the
    temperature *)
Lemma exponent_below_limit (d : domain) (s z : R) :
  0 < s -> planck_slope (pconst sc) d s / (7097 / 10) < z ->
  spec_exponent (pconst sc) d s z < 7097 / 10.
Proof.
  intros Hs Hz. pose proof (planck_slope_pos d Hs) as HB.
  rewrite (proj1 (spec_eta_shape sc radiant d s z)).
  set (B := planck_slope (pconst sc) d s) in *.
  assert (Ha : 0 < B / (7097 / 10)) by (apply Rdiv_lt_0_compat; lra).
  apply div_lt_elim in Hz; [| lra].
  apply div_lt_intro; lra.
Qed.

Lemma temperature_vs_limit (d : domain) (s T : R) :
  0 < s -> 0 < T ->
  (spec_exponent (pconst sc) d s T < 7097 / 10 ->
   planck_slope (pconst sc) d s / (7097 / 10) < T) /\
  (7097 / 10 < spec_exponent (pconst sc) d s T ->
   T < planck_slope (pconst sc) d s / (7097 / 10)).
Proof.
  intros Hs HT. pose proof (planck_slope_pos d Hs) as HB.
  rewrite (proj1 (spec_eta_shape sc radiant d s T)).
  set (B := planck_slope (pconst sc) d s) in *.
  split; intros H.
  - apply div_lt_elim in H; [| lra]. apply div_lt_intro; lra.
  - apply lt_div_elim in H; [| lra]. apply lt_div_intro; lra.
Qed.

End DerivativeOfExitance.

(* ================================================================== *)
(** * The exitance formulas on float inputs, in exact arithmetic *)

(** X21.  In exact real arithmetic, for each of the six exitance functions
    called on floating-point inputs inside the exitance range (spectral
    values of the span, positive temperatures, exponents of at least a
    thousandth): on two lists with at least one temperature the function
    returns the values of the guarded formula, spectral value by spectral
    value and temperature by temperature; on two numbers it returns the
    number the guarded formula gives; the guarded formula is exactly 0
    where the exponent x of the domain is at least 709.7 and
    [c1 * spectral^p / (exp(x) - 1)] otherwise, with a positive
    denominator.  The guard acts on each element separately. *)
Theorem exitance_guarded_formula :
  forall (sc : SciConst R) (q : quantity) (d : domain) (ss ts : list R),
    positive_constants sc ->
    ts <> [] ->
    (forall s T, In s ss -> In T ts -> exitance_range (pconst sc) d s T) ->
    (exists r,
        outcome (exitance_fn sc q d (PyList ss) (PyList ts)) = inr r /\
        values r
        = flat_map (fun s => map (fun T => spec_exitance (pconst sc) q d s T)
                                 ts) ss) /\
    (forall s T, In s ss -> In T ts ->
        outcome (exitance_fn sc q d (PyFloat s) (PyFloat T))
        = inr (PyFloat (spec_exitance (pconst sc) q d s T)) /\
        (0 < exp (spec_exponent (pconst sc) d s T) - 1)%R /\
        (7097 / 10 <= spec_exponent (pconst sc) d s T ->
         spec_exitance (pconst sc) q d s T = 0)%R /\
        (spec_exponent (pconst sc) d s T < 7097 / 10 ->
         spec_exitance (pconst sc) q d s T
         = spec_eta (pconst sc) q d s T)%R).
Proof.
  intros sc q d ss ts Hc Hne Hr. split.
  - destruct (evaluator_on_lists sc exitance q d ss Hne) as (r & Er & Hv).
    exists r. split; [exact Er|]. rewrite Hv.
    apply flat_map_rows_ext. intros s T _ _. apply exitance_at_spec.
  - intros s T Hs HT. split; [|split].
    + change (exitance_fn sc q d) with (evaluator sc exitance q d).
      rewrite evaluator_on_numbers. cbn [evaluator_at].
      now rewrite exitance_at_spec.
    + destruct (Hr s T Hs HT) as (_ & _ & Hx).
      assert (Hne0 : spec_exponent (pconst sc) d s T <> 0%R) by lra.
      pose proof (exp_ineq1 _ Hne0). lra.
    + unfold spec_exitance.
      destruct (Rle_dec (7097 / 10) (spec_exponent (pconst sc) d s T));
        split; intros H; try reflexivity; lra.
Qed.

Lemma exitance_guarded_formula_witness :
  (exists r,
      outcome (exitance_fn codata2010_R radiant wavelength
                           (PyList [1%R; 2%R]) (PyList [300%R])) = inr r /\
      values r
      = flat_map
          (fun s => map (fun T => spec_exitance (pconst codata2010_R)
                                                radiant wavelength s T)
                        [300%R]) [1%R; 2%R]) /\
  outcome (exitance_fn codata2010_R radiant wavelength
                       (PyFloat 2%R) (PyFloat 300%R))
  = inr (PyFloat (spec_exitance (pconst codata2010_R) radiant wavelength
                                2 300)).
Proof.
  assert (H : forall s T, In s [1%R; 2%R] -> In T [300%R] ->
                exitance_range (pconst codata2010_R) wavelength s T).
  { intros s T Hs HT.
    destruct HT as [<-|[]]. destruct Hs as [<-|[<-|[]]];
      unfold exitance_range, spectral_span;
      rewrite codata2010_exponent by lra; lra. }
  pose proof (@exitance_guarded_formula codata2010_R radiant wavelength
                [1%R; 2%R] [300%R] codata2010_R_positive
                ltac:(discriminate) H) as [H1 H2].
  split; [exact H1|].
  exact (proj1 (H2 2%R 300%R (or_intror (or_introl eq_refl))
                   (or_introl eq_refl))).
Defined.

(* ================================================================== *)
(** * The temperature derivatives on float inputs, in exact arithmetic *)

(** X22.  In exact real arithmetic, for each of the six derivative
    functions called on floating-point inputs inside the working range
    (spectral values of the span, positive temperatures, exponents between
    a thousandth and 600): on two lists with at least one temperature the
    function returns the values of [factor * eta], spectral value by
    spectral value and temperature by temperature, with
    [factor = x e^x / (T (e^x - 1))], [x] the exponent of the domain and
    [eta] the unguarded exitance formula; on two numbers it returns that
    number; the denominator of the factor is positive; and [numpy.exp] is
    applied three times to the exponents as they are: the derivative path
    has no guard. *)
Theorem derivative_factor_eta :
  forall (sc : SciConst R) (q : quantity) (d : domain) (ss ts : list R),
    positive_constants sc ->
    ts <> [] ->
    (forall s T, In s ss -> In T ts -> working_range (pconst sc) d s T) ->
    (exists r,
        outcome (derivative_fn sc q d (PyList ss) (PyList ts)) = inr r /\
        values r
        = flat_map
            (fun s =>
               map (fun T => (spec_factor (spec_exponent (pconst sc) d s T) T
                              * spec_eta (pconst sc) q d s T)%R) ts) ss) /\
    exp_calls (derivative_fn sc q d (PyList ss) (PyList ts))
    = (let xs := flat_map
                   (fun T => map (fun s => spec_exponent (pconst sc) d s T)
                                 ss) ts in
       [xs; xs; xs]) /\
    (forall s T, In s ss -> In T ts ->
        outcome (derivative_fn sc q d (PyFloat s) (PyFloat T))
        = inr (PyFloat (spec_factor (spec_exponent (pconst sc) d s T) T
                        * spec_eta (pconst sc) q d s T)%R) /\
        (0 < T * (exp (spec_exponent (pconst sc) d s T) - 1))%R).
Proof.
  intros sc q d ss ts Hc Hne Hr. split; [|split].
  - destruct (evaluator_on_lists sc derivative q d ss Hne) as (r & Er & Hv).
    exists r. split; [exact Er|]. rewrite Hv.
    apply flat_map_rows_ext. intros s T _ _. apply derivative_at_spec.
  - rewrite derivative_exp_calls. cbv zeta.
    unfold over_grid. cbn [elements np_array_ndmin1 data].
    now rewrite map_grid.
  - intros s T Hs HT. split.
    + change (derivative_fn sc q d) with (evaluator sc derivative q d).
      rewrite evaluator_on_numbers. cbn [evaluator_at].
      now rewrite derivative_at_spec.
    + destruct (Hr s T Hs HT) as ((_ & HT0 & Hx) & _).
      assert (Hne0 : spec_exponent (pconst sc) d s T <> 0%R) by lra.
      pose proof (exp_ineq1 _ Hne0). apply Rmult_lt_0_compat; lra.
Qed.

Lemma derivative_factor_eta_witness :
  exp_calls (derivative_fn codata2010_R radiant wavelength
                           (PyList [1%R; 2%R]) (PyList [300%R]))
  = (let xs := flat_map
                 (fun T => map (fun s => spec_exponent (pconst codata2010_R)
                                                       wavelength s T)
                               [1%R; 2%R]) [300%R] in
     [xs; xs; xs]) /\
  outcome (derivative_fn codata2010_R radiant wavelength
                         (PyFloat 2%R) (PyFloat 300%R))
  = inr (PyFloat
           (spec_factor (spec_exponent (pconst codata2010_R) wavelength
                                       2 300) 300
            * spec_eta (pconst codata2010_R) radiant wavelength 2 300)%R).
Proof.
  assert (H : forall s T, In s [1%R; 2%R] -> In T [300%R] ->
                working_range (pconst codata2010_R) wavelength s T).
  { intros s T Hs HT.
    destruct HT as [<-|[]]. destruct Hs as [<-|[<-|[]]];
      unfold working_range, exitance_range, spectral_span;
      rewrite codata2010_exponent by lra; lra. }
  pose proof (@derivative_factor_eta codata2010_R radiant wavelength
                [1%R; 2%R] [300%R] codata2010_R_positive
                ltac:(discriminate) H) as (_ & H1 & H2).
  split; [exact H1|].
  exact (proj1 (H2 2%R 300%R (or_intror (or_introl eq_refl))
                   (or_introl eq_refl))).
Defined.

(** X10.  In exact real arithmetic, with positive constants, for a
    floating-point spectral value and temperature inside the working range
    (in particular an exponent of at most 600): the exitance function
    returns a number at every positive temperature, the derivative function
    returns a number, and that number is the derivative, with respect to
    the temperature, of the number the exitance function returns. *)
Theorem derivative_fn_differentiates_exitance_fn :
  forall (sc : SciConst R) (q : quantity) (d : domain) (s T : R),
    positive_constants sc ->
    working_range (pconst sc) d s T ->
    exists (g : R -> R) (g' : R),
      (forall T', (0 < T')%R ->
         outcome (exitance_fn sc q d (PyFloat s) (PyFloat T'))
         = inr (PyFloat (g T'))) /\
      outcome (derivative_fn sc q d (PyFloat s) (PyFloat T))
      = inr (PyFloat g') /\
      derivable_pt_lim g T g'.
Proof.
  intros sc q d s T Hsc ((Hsp & HT & Hlo) & Hhi).
  assert (Hs : (0 < s)%R).
  { destruct d; cbn [spectral_span] in Hsp; lra. }
  exists (fun T' => spec_exitance (pconst sc) q d s T'),
         (spec_derivative (pconst sc) q d s T).
  split; [|split].
  - intros T' _.
    change (exitance_fn sc q d) with (evaluator sc exitance q d).
    rewrite evaluator_on_numbers. cbn [evaluator_at].
    now rewrite exitance_at_spec.
  - change (derivative_fn sc q d) with (evaluator sc derivative q d).
    rewrite evaluator_on_numbers. cbn [evaluator_at].
    now rewrite derivative_at_spec.
  - apply derivable_pt_lim_locally_ext
      with (f := fun T' => spec_eta (pconst sc) q d s T')
           (a := (planck_slope (pconst sc) d s / (7097 / 10))%R)
           (b := (T + 1)%R).
    + split; [| lra]. apply temperature_vs_limit; auto. lra.
    + intros z [Hz _]. unfold spec_exitance.
      pose proof (exponent_below_limit Hsc d Hs Hz).
      destruct (Rle_dec _ _); [lra | reflexivity].
    + now apply spec_eta_derivative.
Qed.

Lemma derivative_fn_differentiates_exitance_fn_witness :
  exists (g : R -> R) (g' : R),
    (forall T', (0 < T')%R ->
       outcome (exitance_fn codata2010_R radiant wavelength
                            (PyFloat 10%R) (PyFloat T'))
       = inr (PyFloat (g T'))) /\
    outcome (derivative_fn codata2010_R radiant wavelength
                           (PyFloat 10%R) (PyFloat 300%R))
    = inr (PyFloat g') /\
    derivable_pt_lim g 300%R g'.
Proof.
  refine (@derivative_fn_differentiates_exitance_fn codata2010_R radiant
            wavelength 10%R 300%R codata2010_R_positive _).
  unfold working_range, exitance_range, spectral_span.
  rewrite codata2010_exponent by lra. lra.
Defined.


(* ================================================================== *)
(** * IEEE-754 binary64: facts about rounding *)

Section Rounding.
Local Open Scope Z_scope.

Lemma shr_1_m (r : shr_record) :
  0 <= shr_m r -> shr_m (shr_1 r) = shr_m r / 2 /\ 0 <= shr_m (shr_1 r).
Proof.
  destruct r as [m rb sb]. intros Hm. simpl in Hm.
  destruct m as [|[p|p|]|p]; simpl.
  - split; [reflexivity | lia].
  - split; [| lia]. rewrite Pos2Z.inj_xI.
    apply Z.div_unique with (r := 1); lia.
  - split; [| lia]. rewrite Pos2Z.inj_xO.
    apply Z.div_unique with (r := 0); lia.
  - split; [reflexivity | lia].
  - lia.
Qed.

(** Shifting right [p] times divides the mantissa by [2^p]. *)
Lemma iter_shr_1_m (p : positive) (r : shr_record) :
  0 <= shr_m r ->
  shr_m (iter_pos shr_1 p r) = shr_m r / 2 ^ Zpos p /\
  0 <= shr_m (iter_pos shr_1 p r).
Proof.
  revert r. induction p as [p IH|p IH|]; intros r Hr; cbn [iter_pos].
  - assert (Hp : 0 < 2 ^ Zpos p) by (apply Z.pow_pos_nonneg; lia).
    assert (E : 2 ^ Zpos p~1 = 2 * 2 ^ Zpos p * 2 ^ Zpos p).
    { rewrite Pos2Z.inj_xI.
      replace (2 * Zpos p + 1) with (1 + Zpos p + Zpos p) by lia.
      rewrite !Z.pow_add_r by lia. reflexivity. }
    destruct (shr_1_m r Hr) as [E1 P1].
    destruct (IH _ P1) as [E2 P2]. destruct (IH _ P2) as [E3 P3].
    split; [| exact P3]. rewrite E3, E2, E1, E.
    rewrite !Z.div_div by lia. f_equal. lia.
  - assert (Hp : 0 < 2 ^ Zpos p) by (apply Z.pow_pos_nonneg; lia).
    assert (E : 2 ^ Zpos p~0 = 2 ^ Zpos p * 2 ^ Zpos p).
    { rewrite <- Z.pow_add_r by lia. f_equal. lia. }
    destruct (IH _ Hr) as [E2 P2]. destruct (IH _ P2) as [E3 P3].
    split; [| exact P3]. rewrite E3, E2, E.
    rewrite !Z.div_div by lia. reflexivity.
  - change (2 ^ 1) with 2. apply shr_1_m. exact Hr.
Qed.

Lemma shr_record_of_loc_m (m : Z) (l : location) :
  shr_m (shr_record_of_loc m l) = m.
Proof. destruct l as [|[| |]]; reflexivity. Qed.

(** [shr]: the mantissa is divided by [2^n] for a positive shift [n] and
    left alone otherwise; the exponent grows by the shift. *)
Lemma shr_spec (r : shr_record) (e n : Z) :
  0 <= shr_m r ->
  shr_m (fst (shr r e n)) = shr_m r / 2 ^ Z.max 0 n /\
  0 <= shr_m (fst (shr r e n)) /\
  snd (shr r e n) = e + Z.max 0 n.
Proof.
  intros Hr. unfold shr. destruct n as [|p|p]; simpl.
  - rewrite Z.div_1_r. lia.
  - destruct (iter_shr_1_m p r Hr) as [E P]. rewrite E. lia.
  - rewrite Z.div_1_r. lia.
Qed.

Lemma round_nearest_even_bounds (m : Z) (l : location) :
  m <= round_nearest_even m l <= m + 1.
Proof.
  unfold round_nearest_even.
  destruct l as [|[| |]]; try destruct (Z.even m); lia.
Qed.

(** The number of binary digits of a positive number *)
Lemma digits2_pos_bounds (p : positive) :
  2 ^ (Zpos (digits2_pos p) - 1) <= Zpos p < 2 ^ Zpos (digits2_pos p).
Proof.
  induction p as [p IH|p IH|]; simpl digits2_pos.
  - rewrite Pos2Z.inj_succ.
    replace (Z.succ (Zpos (digits2_pos p)) - 1)
      with (Zpos (digits2_pos p)) by lia.
    rewrite Z.pow_succ_r by lia.
    assert (E : 2 ^ Zpos (digits2_pos p)
                = 2 * 2 ^ (Zpos (digits2_pos p) - 1)).
    { rewrite <- Z.pow_succ_r by lia. f_equal. lia. }
    lia.
  - rewrite Pos2Z.inj_succ.
    replace (Z.succ (Zpos (digits2_pos p)) - 1)
      with (Zpos (digits2_pos p)) by lia.
    rewrite Z.pow_succ_r by lia.
    assert (E : 2 ^ Zpos (digits2_pos p)
                = 2 * 2 ^ (Zpos (digits2_pos p) - 1)).
    { rewrite <- Z.pow_succ_r by lia. f_equal. lia. }
    lia.
  - simpl. lia.
Qed.

Lemma digits2_pos_unique (p : positive) (d : Z) :
  2 ^ (d - 1) <= Zpos p < 2 ^ d -> Zpos (digits2_pos p) = d.
Proof.
  intros [Hl Hu]. pose proof (digits2_pos_bounds p) as [Bl Bu].
  assert (Hd : 0 < d).
  { destruct (Z_lt_le_dec 0 d) as [|Hle]; [assumption|].
    exfalso. destruct (Z.eq_dec d 0) as [->|];
      [simpl in Hu; lia | rewrite Z.pow_neg_r in Hu by lia; lia]. }
  assert (H1 : Zpos (digits2_pos p) - 1 < d).
  { apply (Z.pow_lt_mono_r_iff 2); lia. }
  assert (H2 : d - 1 < Zpos (digits2_pos p)).
  { apply (Z.pow_lt_mono_r_iff 2); lia. }
  lia.
Qed.

End Rounding.

Section RoundingToBinary64.
Local Open Scope Z_scope.

(** Rounding a non-negative mantissa never gives a NaN or a negative
    value. *)
Lemma binary_round_aux_nonneg (m e : Z) (l : location) :
  0 <= m -> SF_nonneg (binary_round_aux prec emax false m e l).
Proof.
  intros Hm. unfold binary_round_aux, shr_fexp.
  set (n1 := SpecFloat.fexp prec emax (Zdigits2 m + e) - e).
  pose proof (shr_spec (shr_record_of_loc m l) e n1) as S1.
  rewrite shr_record_of_loc_m in S1. specialize (S1 Hm).
  destruct (shr (shr_record_of_loc m l) e n1) as [mrs' e'].
  cbn [fst snd] in S1. destruct S1 as (_ & P1 & _).
  set (m2 := round_nearest_even (shr_m mrs') (loc_of_shr_record mrs')).
  assert (Hm2 : 0 <= m2)
    by (pose proof (round_nearest_even_bounds (shr_m mrs')
                      (loc_of_shr_record mrs')); unfold m2; lia).
  set (n2 := SpecFloat.fexp prec emax (Zdigits2 m2 + e') - e').
  pose proof (shr_spec (shr_record_of_loc m2 loc_Exact) e' n2) as S2.
  rewrite shr_record_of_loc_m in S2. specialize (S2 Hm2).
  destruct (shr (shr_record_of_loc m2 loc_Exact) e' n2) as [mrs'' e''].
  cbn [fst snd] in S2. destruct S2 as (_ & P2 & _).
  destruct (shr_m mrs'') as [|p|p]; [exact I | | lia].
  destruct (e'' <=? emax - prec); exact I.
Qed.

(** Rounding a mantissa of at least 53 bits keeps the exponent of its
    leading bit: the result is [+infinity] or has exponent field
    [digits + e - 53] or more. *)
Lemma binary_round_aux_big (p : positive) (e : Z) (l : location) :
  53 <= Zpos (digits2_pos p) ->
  -1074 <= Zpos (digits2_pos p) + e - 53 ->
  SF_big (Zpos (digits2_pos p) + e - 53)
         (binary_round_aux prec emax false (Zpos p) e l).
Proof.
  intros HD He. pose proof (digits2_pos_bounds p) as [Bl Bu].
  set (D := Zpos (digits2_pos p)) in *.
  unfold binary_round_aux, shr_fexp.
  change (Zdigits2 (Zpos p)) with D.
  assert (En1 : SpecFloat.fexp prec emax (D + e) - e = D - 53)
    by (unfold SpecFloat.fexp, SpecFloat.emin, prec, emax; lia).
  rewrite En1.
  pose proof (shr_spec (shr_record_of_loc (Zpos p) l) e (D - 53)) as S1.
  rewrite shr_record_of_loc_m in S1. specialize (S1 ltac:(lia)).
  destruct (shr (shr_record_of_loc (Zpos p) l) e (D - 53)) as [mrs' e'].
  cbn [fst snd] in S1. destruct S1 as (E1 & P1 & Ee1).
  rewrite Z.max_r in E1, Ee1 by lia.
  assert (Hk : 0 < 2 ^ (D - 53)) by (apply Z.pow_pos_nonneg; lia).
  assert (B1 : 2 ^ 52 <= shr_m mrs' < 2 ^ 53).
  { rewrite E1. split.
    - apply Z.div_le_lower_bound; [exact Hk|].
      rewrite Z.mul_comm, <- Z.pow_add_r by lia.
      replace (52 + (D - 53)) with (D - 1) by lia. exact Bl.
    - apply Z.div_lt_upper_bound; [exact Hk|].
      rewrite <- Z.pow_add_r by lia.
      replace (D - 53 + 53) with D by lia. exact Bu. }
  set (m2 := round_nearest_even (shr_m mrs') (loc_of_shr_record mrs')).
  assert (B2 : 2 ^ 52 <= m2 <= 2 ^ 53)
    by (pose proof (round_nearest_even_bounds (shr_m mrs')
                      (loc_of_shr_record mrs')); unfold m2; lia).
  assert (P52 : 0 < 2 ^ 52) by (apply Z.pow_pos_nonneg; lia).
  destruct m2 as [|p2|p2] eqn:Em2; try lia.
  assert (HD2 : Zpos (digits2_pos p2) = 53 \/ Zpos (digits2_pos p2) = 54).
  { destruct (Z.eq_dec (Zpos p2) (2 ^ 53)) as [E|NE].
    - right. apply digits2_pos_unique. rewrite E.
      change (54 - 1) with 53. split; [lia|].
      apply Z.pow_lt_mono_r; lia.
    - left. apply digits2_pos_unique. change (53 - 1) with 52. lia. }
  change (Zdigits2 (Zpos p2)) with (Zpos (digits2_pos p2)).
  set (D2 := Zpos (digits2_pos p2)) in *.
  assert (En2 : SpecFloat.fexp prec emax (D2 + e') - e' = D2 - 53)
    by (unfold SpecFloat.fexp, SpecFloat.emin, prec, emax; lia).
  rewrite En2.
  pose proof (shr_spec (shr_record_of_loc (Zpos p2) loc_Exact) e' (D2 - 53))
    as S2.
  rewrite shr_record_of_loc_m in S2. specialize (S2 ltac:(lia)).
  destruct (shr (shr_record_of_loc (Zpos p2) loc_Exact) e' (D2 - 53))
    as [mrs'' e''].
  cbn [fst snd] in S2. destruct S2 as (E2 & P2 & Ee2).
  assert (B3 : 0 < shr_m mrs'').
  { rewrite E2. apply Z.div_str_pos. split.
    - apply Z.pow_pos_nonneg; lia.
    - apply Z.le_trans with (2 ^ 1).
      + apply Z.pow_le_mono_r; lia.
      + change (2 ^ 1) with 2. change (2 ^ 52) with 4503599627370496 in B2.
        lia. }
  destruct (shr_m mrs'') as [|p3|p3]; try lia.
  destruct (e'' <=? emax - prec); cbn [SF_big]; lia.
Qed.

End RoundingToBinary64.

(* ================================================================== *)
(** * Binary64 arithmetic: size, sign and the special values *)

Section BinaryFloats.
Local Open Scope Z_scope.

Lemma SF_big_weaken (k k' : Z) (x : spec_float) :
  k <= k' -> SF_big k' x -> SF_big k x.
Proof.
  destruct x as [s|s| |s m e]; try destruct s; cbn [SF_big]; auto; lia.
Qed.

(** A binary64 number above the subnormal range has a mantissa of exactly
    53 bits, and its exponent field is at most 971. *)
Lemma valid_finite (s : bool) (m : positive) (e : Z) :
  valid_binary (S754_finite s m e) = true ->
  e <= 971 /\ (-1074 < e -> Zpos (digits2_pos m) = 53).
Proof.
  cbn [valid_binary]. unfold bounded, canonical_mantissa.
  intros H. apply andb_true_iff in H. destruct H as [H1 H2].
  apply Z.eqb_eq in H1. apply Z.leb_le in H2.
  unfold SpecFloat.fexp, SpecFloat.emin, emax, prec in *. lia.
Qed.

(** The product of two positive numbers of exponent fields at least [i]
    and [j] has exponent field at least [i + j + 52], or is [+infinity]. *)
Lemma SFmul_big (i j : Z) (a b : spec_float) :
  valid_binary a = true -> valid_binary b = true ->
  SF_big i a -> SF_big j b ->
  -1074 < i -> -1074 < j -> -1074 <= i + j + 52 ->
  SF_big (i + j + 52) (SFmul prec emax a b).
Proof.
  intros Va Vb Ha Hb Hi Hj Hij.
  destruct a as [sa|sa| |sa ma ea]; try destruct sa; try contradiction;
    destruct b as [sb|sb| |sb mb eb]; try destruct sb; try contradiction;
    cbn [SF_big] in Ha, Hb; try exact I.
  cbn [SFmul xorb].
  destruct (valid_finite _ _ _ Va) as [_ Da]. specialize (Da ltac:(lia)).
  destruct (valid_finite _ _ _ Vb) as [_ Db]. specialize (Db ltac:(lia)).
  pose proof (digits2_pos_bounds ma) as Ba. rewrite Da in Ba.
  pose proof (digits2_pos_bounds mb) as Bb. rewrite Db in Bb.
  change (53 - 1) with 52 in Ba, Bb.
  pose proof (digits2_pos_bounds (ma * mb)) as [_ Bu].
  rewrite Pos2Z.inj_mul in Bu.
  assert (P52 : 2 ^ 52 * 2 ^ 52 = 2 ^ 104) by reflexivity.
  assert (L : 2 ^ 104 < 2 ^ Zpos (digits2_pos (ma * mb))).
  { apply Z.le_lt_trans with (Zpos ma * Zpos mb); [|exact Bu].
    rewrite <- P52. apply Z.mul_le_mono_nonneg; lia. }
  apply Z.pow_lt_mono_r_iff in L; [|lia|lia].
  eapply SF_big_weaken; [|apply binary_round_aux_big]; lia.
Qed.

Lemma SF_big_top (k : Z) (x : spec_float) :
  valid_binary x = true -> SF_big k x -> 971 < k ->
  x = S754_infinity false.
Proof.
  intros V H Hk.
  destruct x as [s|s| |s m e]; try destruct s; try contradiction;
    [reflexivity|].
  cbn [SF_big] in H. destruct (valid_finite _ _ _ V) as [He _]. lia.
Qed.

Lemma SFcompare_antisym (x y : spec_float) :
  SFcompare y x = option_map CompOpp (SFcompare x y).
Proof.
  destruct x as [sx|sx| |sx mx ex], y as [sy|sy| |sy my ey];
    try destruct sx; try destruct sy; cbn [SFcompare option_map CompOpp];
    try reflexivity.
  - rewrite (Z.compare_antisym ey ex).
    destruct (ey ?= ex)%Z; cbn [CompOpp]; try reflexivity.
    rewrite (Pos.compare_cont_antisym mx my Eq). reflexivity.
  - rewrite (Z.compare_antisym ey ex).
    destruct (ey ?= ex)%Z; cbn [CompOpp]; try reflexivity.
    rewrite (Pos.compare_cont_antisym mx my Eq). reflexivity.
Qed.

End BinaryFloats.

Section Float64.

Lemma mul_big (i j : Z) (a b : float) :
  big i a -> big j b ->
  (-1074 < i)%Z -> (-1074 < j)%Z -> (-1074 <= i + j + 52)%Z ->
  big (i + j + 52) (a * b).
Proof.
  unfold big. intros Ha Hb Hi Hj Hij. rewrite mul_spec.
  apply SFmul_big; auto using Prim2SF_valid.
Qed.

Lemma big_top (k : Z) (x : float) :
  big k x -> (971 < k)%Z -> nonfinite x = true.
Proof.
  unfold big, nonfinite. intros H Hk.
  now rewrite (@SF_big_top k (Prim2SF x) (Prim2SF_valid x) H Hk).
Qed.

(** A value not below a positive number of exponent field [e] has
    exponent field at least [e]. *)
Lemma leb_big (c x : float) (m : positive) (e : Z) :
  Prim2SF c = S754_finite false m e -> (c <=? x)%float = true -> big e x.
Proof.
  intros Ec H. rewrite leb_spec, Ec in H. unfold big.
  destruct (Prim2SF x) as [s|s| |s m' e']; try destruct s;
    try discriminate H; cbn [SF_big]; [exact I|].
  unfold SFleb in H. cbn [SFcompare] in H.
  destruct (e ?= e')%Z eqn:E; try discriminate H.
  - apply Z.compare_eq in E. lia.
  - rewrite Z.compare_lt_iff in E. lia.
Qed.

Lemma leb_not_ltb (c x : float) :
  (c <=? x)%float = true -> (x <? c)%float = false.
Proof.
  rewrite leb_spec, ltb_spec. unfold SFleb, SFltb.
  rewrite (SFcompare_antisym (Prim2SF c) (Prim2SF x)).
  destruct (SFcompare (Prim2SF c) (Prim2SF x)) as [[| |]|];
    cbn [option_map CompOpp]; intros H; try reflexivity; discriminate H.
Qed.

(** A NaN or an infinity stays one when multiplied or divided. *)
Lemma nonfinite_mul_l (u y : float) :
  nonfinite u = true -> nonfinite (u * y) = true.
Proof.
  unfold nonfinite. rewrite mul_spec. unfold SF64mul.
  destruct (Prim2SF u) as [s|s| |s m e]; intros H; try discriminate H;
    destruct (Prim2SF y) as [s'|s'| |s' m' e']; reflexivity.
Qed.

Lemma nonfinite_mul_r (u y : float) :
  nonfinite u = true -> nonfinite (y * u) = true.
Proof.
  unfold nonfinite. rewrite mul_spec. unfold SF64mul.
  destruct (Prim2SF u) as [s|s| |s m e]; intros H; try discriminate H;
    destruct (Prim2SF y) as [s'|s'| |s' m' e']; reflexivity.
Qed.

Lemma nonfinite_div_l (u z : float) :
  nonfinite u = true -> nonfinite (u / z) = true.
Proof.
  unfold nonfinite. rewrite div_spec. unfold SF64div.
  destruct (Prim2SF u) as [s|s| |s m e]; intros H; try discriminate H;
    destruct (Prim2SF z) as [s'|s'| |s' m' e']; reflexivity.
Qed.

Lemma nan_or_inf_nonfinite (x : float) :
  nan_or_inf x = true -> nonfinite x = true.
Proof.
  unfold nan_or_inf, nonfinite.
  destruct (Prim2SF x) as [s|s| |s m e]; try destruct s; auto.
Qed.

(** A NaN or [+infinity] is below no value. *)
Lemma nan_or_inf_not_below (x c : float) :
  nan_or_inf x = true -> (x <? c)%float = false.
Proof.
  unfold nan_or_inf. rewrite ltb_spec. unfold SFltb.
  destruct (Prim2SF x) as [s|s| |s m e]; try destruct s; intros H;
    try discriminate H;
    destruct (Prim2SF c) as [s'|s'| |s' m' e']; try destruct s'; reflexivity.
Qed.

Lemma SF_nonneg_not_negative (x : float) :
  SF_nonneg (Prim2SF x) -> not_negative x = true.
Proof.
  unfold not_negative.
  destruct (Prim2SF x) as [s|s| |s m e]; try destruct s;
    cbn [SF_nonneg]; auto; contradiction.
Qed.

(** Products and quotients of values that are not negative are not
    negative. *)
Lemma not_negative_mul (a b : float) :
  not_negative a = true -> not_negative b = true ->
  not_negative (a * b) = true.
Proof.
  intros Ha Hb. unfold not_negative in Ha, Hb.
  destruct (Prim2SF a) as [sa|sa| |sa ma ea] eqn:Ea;
    destruct (Prim2SF b) as [sb|sb| |sb mb eb] eqn:Eb;
    try destruct sa; try destruct sb; try discriminate;
    try (unfold not_negative; rewrite mul_spec, Ea, Eb; reflexivity).
  apply SF_nonneg_not_negative. rewrite mul_spec, Ea, Eb.
  cbn [SF64mul SFmul xorb]. unfold SF64mul. cbn [SFmul xorb].
  apply binary_round_aux_nonneg. lia.
Qed.

Lemma not_negative_div (a b : float) :
  not_negative a = true -> not_negative b = true ->
  not_negative (a / b) = true.
Proof.
  intros Ha Hb. unfold not_negative in Ha, Hb.
  destruct (Prim2SF a) as [sa|sa| |sa ma ea] eqn:Ea;
    destruct (Prim2SF b) as [sb|sb| |sb mb eb] eqn:Eb;
    try destruct sa; try destruct sb; try discriminate;
    try (unfold not_negative; rewrite div_spec, Ea, Eb; reflexivity).
  apply SF_nonneg_not_negative. rewrite div_spec, Ea, Eb.
  unfold SF64div. cbn [SFdiv xorb].
  destruct (SFdiv_core_binary prec emax (Z.pos ma) ea (Z.pos mb) eb)
    as [[q e] l] eqn:E.
  apply binary_round_aux_nonneg.
  unfold SFdiv_core_binary in E. cbv zeta in E.
  match type of E with
  | (let '(_, _) := Z.div_eucl ?x ?y in _) = _ =>
      assert (Hx : (0 <= x)%Z);
      [| pose proof (Z_div_mod x y ltac:(lia)) as Hd;
         destruct (Z.div_eucl x y) as [q' r]; injection E as <- _ _; nia]
  end.
  match goal with
  | |- (0 <= match ?k with _ => _ end)%Z => destruct k as [|p|p]
  end; try lia.
  rewrite Z.shiftl_mul_pow2 by lia.
  apply Z.mul_nonneg_nonneg; [lia|]. apply Z.pow_nonneg. lia.
Qed.

(** Dividing a value that is not negative by [+0] gives a NaN or
    [+infinity]; so does multiplying a NaN or [+infinity] by a value that is
    not negative. *)
Lemma div_by_zero_nan_or_inf (a z : float) :
  not_negative a = true -> Prim2SF z = S754_zero false ->
  nan_or_inf (a / z) = true.
Proof.
  unfold not_negative, nan_or_inf. rewrite div_spec. intros H ->.
  destruct (Prim2SF a) as [s|s| |s m e]; try destruct s;
    try discriminate H; reflexivity.
Qed.

Lemma div_by_nan_nan_or_inf (a z : float) :
  Prim2SF z = S754_nan -> nan_or_inf (a / z) = true.
Proof.
  unfold nan_or_inf. rewrite div_spec. intros ->.
  destruct (Prim2SF a) as [s|s| |s m e]; reflexivity.
Qed.

Lemma mul_by_zero (s : float) :
  not_negative s = true ->
  Prim2SF (s * 0) = S754_zero false \/ Prim2SF (s * 0) = S754_nan.
Proof.
  unfold not_negative. rewrite mul_spec.
  change (Prim2SF 0) with (S754_zero false).
  destruct (Prim2SF s) as [s'|s'| |s' m e]; try destruct s'; intros H;
    try discriminate H; auto.
Qed.

Lemma mul_nan_or_inf (a x : float) :
  not_negative a = true -> nan_or_inf x = true -> nan_or_inf (a * x) = true.
Proof.
  unfold not_negative, nan_or_inf. rewrite mul_spec.
  destruct (Prim2SF a) as [s|s| |s m e]; try destruct s; intros H;
    try discriminate H;
    destruct (Prim2SF x) as [s'|s'| |s' m' e']; try destruct s'; intros H';
    try discriminate H'; reflexivity.
Qed.

End Float64.

(* ================================================================== *)
(** * The evaluators on binary64 *)

Lemma Forall_map_out_grid {X} (P P' Q : X -> Prop) (g : X -> X -> X)
      (ss ts : list X) :
  Forall P ss -> Forall P' ts ->
  (forall s t, P s -> P' t -> Q (g s t)) ->
  Forall Q (map (fun p => g (fst p) (snd p)) (out_grid ss ts)).
Proof.
  intros Hs Ht Hg. rewrite Forall_forall in *.
  intros v Hv. apply in_map_iff in Hv. destruct Hv as (p & <- & Hp).
  apply in_out_grid in Hp. destruct Hp. apply Hg; auto.
Qed.

(** Each exitance function guards its value by its exponent. *)
Lemma exitance_at_guard {F : Type} {AF : Arith F} (sc : SciConst F)
      (q : quantity) (d : domain) (s t : F) :
  exists p, exitance_at sc q d s t
            = guard (exponent_at sc exitance q d s t) p.
Proof. destruct q, d; eexists; reflexivity. Qed.

Section EvaluatorsFloat.
Variable exp_f : float -> float.
Variable pow_f : float -> nat -> float.
Let AFl : Arith float := Arith_float exp_f pow_f.
Local Existing Instance AFl.
Variable sc : SciConst float.


Lemma guard_zero (x p : float) :
  (x <? 709.7)%float = false -> guard x p = 0%float.
Proof.
  intros H. unfold guard.
  change (fltb x explimit) with (x <? 709.7)%float. now rewrite H.
Qed.



(** ** Temperature zero *)

Hypothesis h_not_negative : not_negative (const_h sc) = true.
Hypothesis c_not_negative : not_negative (const_c sc) = true.
Hypothesis k_not_negative : not_negative (const_k sc) = true.

Lemma c2_not_negative :
  not_negative (c2l (pconst sc)) = true /\
  not_negative (c2n (pconst sc)) = true /\
  not_negative (c2f (pconst sc)) = true.
Proof.
  cbn [pconst PlanckConstants_init c2l c2n c2f].
  repeat split;
    repeat first [ apply not_negative_mul | apply not_negative_div
                 | assumption | reflexivity ].
Qed.

Lemma exponent_at_zero_temperature (fam : family) (q : quantity)
      (d : domain) (s : float) :
  not_negative s = true ->
  nan_or_inf (exponent_at sc fam q d s 0%float) = true.
Proof.
  intros Hs. destruct c2_not_negative as (Hl & Hn & Hf).
  assert (Z0 : Prim2SF 0%float = S754_zero false) by reflexivity.
  destruct d; cbn [exponent_at].
  - unfold exP_l. cbn [fdiv fmul AFl Arith_float].
    destruct (mul_by_zero s Hs) as [E|E].
    + now apply div_by_zero_nan_or_inf.
    + now apply div_by_nan_nan_or_inf.
  - assert (E1 : nan_or_inf (exP_n sc s 0%float) = true).
    { unfold exP_n. cbn [fdiv fmul AFl Arith_float].
      apply div_by_zero_nan_or_inf; [now apply not_negative_mul | exact Z0]. }
    assert (E2 : nan_or_inf (exP_n' sc s 0%float) = true).
    { unfold exP_n'. cbn [fdiv fmul AFl Arith_float].
      apply mul_nan_or_inf; [exact Hn|].
      now apply div_by_zero_nan_or_inf. }
    destruct fam, q; assumption.
  - unfold exP_f. cbn [fdiv fmul AFl Arith_float].
    apply div_by_zero_nan_or_inf; [now apply not_negative_mul | exact Z0].
Qed.

End EvaluatorsFloat.

Section DerivativesFloat.
Variable exp_f : float -> float.
Variable pow_f : float -> nat -> float.
Let AFl : Arith float := Arith_float exp_f pow_f.
Local Existing Instance AFl.
Variable sc : SciConst float.

(** The derivative is a NaN or an infinity as soon as the product in the
    numerator of its first factor is. *)
Lemma dfactor_nonfinite (xx t y : float) :
  nonfinite (xx * exp_f xx) = true -> nonfinite (dfactor xx t * y) = true.
Proof.
  intros H. unfold dfactor. cbn [fdiv fmul fexp AFl Arith_float].
  apply nonfinite_mul_l, nonfinite_div_l, H.
Qed.

Lemma derivative_at_nonfinite (q : quantity) (d : domain) (s t : float) :
  let xx := exponent_at sc derivative q d s t in
  nonfinite (xx * exp_f xx) = true ->
  nonfinite (c1el (pconst sc) * xx * exp_f xx) = true ->
  nonfinite (derivative_at sc q d s t) = true.
Proof.
  intros xx H1 H2. subst xx.
  destruct q, d; cbn [derivative_at exponent_at] in *;
    try (apply dfactor_nonfinite; exact H1).
  unfold dplnckel_at. cbn [fdiv fmul fexp AFl Arith_float].
  apply nonfinite_div_l, nonfinite_div_l, H2.
Qed.

Lemma derivative_at_nonfinite_exponent (q : quantity) (d : domain)
      (s t : float) :
  nonfinite (exponent_at sc derivative q d s t) = true ->
  nonfinite (derivative_at sc q d s t) = true.
Proof.
  intros H. apply derivative_at_nonfinite.
  - now apply nonfinite_mul_l.
  - now apply nonfinite_mul_l, nonfinite_mul_r.
Qed.

(** Beyond the limit, with an exponential that overflows there. *)
Lemma derivative_at_beyond_limit (q : quantity) (d : domain) (s t : float) :
  (forall x, (709.7 <=? x)%float = true ->
             (0x1p1023 <=? exp_f x)%float = true) ->
  (1 <=? c1el (pconst sc))%float = true ->
  (709.7 <=? exponent_at sc derivative q d s t)%float = true ->
  nonfinite (derivative_at sc q d s t) = true.
Proof.
  intros Hexp Hc Hx.
  set (xx := exponent_at sc derivative q d s t) in *.
  assert (Bx : big (-43) xx)
    by (eapply leb_big; [|exact Hx]; reflexivity).
  assert (Be : big 971 (exp_f xx))
    by (eapply leb_big; [|apply Hexp, Hx]; reflexivity).
  assert (Bc : big (-52) (c1el (pconst sc)))
    by (eapply leb_big; [|exact Hc]; reflexivity).
  apply derivative_at_nonfinite; fold xx.
  - apply big_top with (k := (-43 + 971 + 52)%Z); [|lia].
    apply mul_big; auto; lia.
  - apply big_top with (k := (-52 + -43 + 52 + 971 + 52)%Z); [|lia].
    apply mul_big; [apply mul_big; auto; lia | auto | lia | lia | lia].
Qed.

End DerivativesFloat.

(** X13.  On binary64, at temperature zero: with Planck's constant, the speed of
    light and Boltzmann's constant not negative, and spectral values that
    are not negative (zero and infinity included), every exitance function
    returns zeros, and every derivative function returns without raising,
    each element a NaN or an infinity. *)
Theorem zero_temperature :
  forall (exp_f : float -> float) (pow_f : float -> nat -> float)
         (sc : SciConst float) (q : quantity) (d : domain)
         (w t : pyobj float),
    not_negative (const_h sc) = true ->
    not_negative (const_c sc) = true ->
    not_negative (const_k sc) = true ->
    flat w -> flat t -> elements t <> [] ->
    Forall (fun s => not_negative s = true) (elements w) ->
    Forall (fun T => T = 0%float) (elements t) ->
    (exists r,
        outcome (@exitance_fn float (Arith_float exp_f pow_f) sc q d w t)
        = inr r /\
        Forall (fun v => v = 0%float) (values r)) /\
    (exists r,
        outcome (@derivative_fn float (Arith_float exp_f pow_f) sc q d w t)
        = inr r /\
        Forall (fun v => nonfinite v = true) (values r)).
Proof.
  intros exp_f pow_f sc q d w t Hh Hc Hk Hw Ht Hne Pw Pt.
  set (AFl := Arith_float exp_f pow_f).
  split.
  - destruct (@pointwise_values_in_order float AFl (exitance_at sc q d)
                w t Hw Ht Hne) as (r & Hr & Hv).
    exists r. split.
    + change (exitance_fn sc q d w t) with (evaluator sc exitance q d w t).
      rewrite evaluator_pointwise. cbn [evaluator_at]. now rewrite Hr.
    + rewrite Hv. eapply Forall_map_out_grid; [exact Pw | exact Pt |].
      intros s T Hs ->. cbv beta.
      destruct (exitance_at_guard sc q d s 0%float) as [p ->].
      apply guard_zero, nan_or_inf_not_below.
      now apply exponent_at_zero_temperature.
  - destruct (@pointwise_values_in_order float AFl (derivative_at sc q d)
                w t Hw Ht Hne) as (r & Hr & Hv).
    exists r. split.
    + change (derivative_fn sc q d w t)
        with (evaluator sc derivative q d w t).
      rewrite evaluator_pointwise. cbn [evaluator_at]. now rewrite Hr.
    + rewrite Hv. eapply Forall_map_out_grid; [exact Pw | exact Pt |].
      intros s T Hs ->. cbv beta.
      apply derivative_at_nonfinite_exponent, nan_or_inf_nonfinite.
      now apply exponent_at_zero_temperature.
Qed.

Lemma zero_temperature_witness :
  exists r,
    outcome (@derivative_fn float
               (Arith_float (fun x => x)
                            (fun x n => Nat.iter n (PrimFloat.mul x) 1%float))
               codata2010 radiant wavelength
               (PyList [1.5%float; 2%float]) (PyFloat 0%float))
    = inr r /\
    Forall (fun v => nonfinite v = true) (values r).
Proof.
  refine (proj2 (@zero_temperature (fun x => x)
                   (fun x n => Nat.iter n (PrimFloat.mul x) 1%float)
                   codata2010 radiant wavelength
                   (PyList [1.5%float; 2%float]) (PyFloat 0%float)
                   eq_refl eq_refl eq_refl eq_refl eq_refl _ _ _)).
  - discriminate.
  - repeat constructor.
  - repeat constructor.
Defined.

(** X14.  On binary64, for a call on two numbers whose exponent is 709.7 or
    more, with an exponential that returns at least [2^1023] from 709.7 on
    and a first radiation constant [c1el] of at least one: every derivative
    function returns a NaN or an infinity, where the exitance function
    returns zero. *)
Theorem derivative_nonfinite_beyond_limit :
  forall (exp_f : float -> float) (pow_f : float -> nat -> float)
         (sc : SciConst float) (q : quantity) (d : domain) (s t : float),
    let AFl := Arith_float exp_f pow_f in
    (forall x, (709.7 <=? x)%float = true ->
               (0x1p1023 <=? exp_f x)%float = true) ->
    (1 <=? c1el (@pconst float AFl sc))%float = true ->
    (709.7 <=? @exponent_at float AFl sc derivative q d s t)%float = true ->
    (709.7 <=? @exponent_at float AFl sc exitance q d s t)%float = true ->
    nonfinite (scalar_result
                 (@derivative_fn float AFl sc q d (PyFloat s) (PyFloat t))
                 0%float) = true /\
    scalar_result (@exitance_fn float AFl sc q d (PyFloat s) (PyFloat t))
                  1%float = 0%float.
Proof.
  intros exp_f pow_f sc q d s t AFl Hexp Hc Hd He. split.
  - change (derivative_fn sc q d) with (evaluator sc derivative q d).
    rewrite scalar_result_at. cbn [evaluator_at].
    now apply derivative_at_beyond_limit.
  - change (exitance_fn sc q d) with (evaluator sc exitance q d).
    rewrite scalar_result_at. cbn [evaluator_at].
    destruct (exitance_at_guard sc q d s t) as [p ->].
    now apply guard_zero, leb_not_ltb.
Qed.

Lemma derivative_nonfinite_beyond_limit_witness :
  nonfinite (scalar_result
               (@derivative_fn float
                  (Arith_float
                     (fun x => if (709.7 <=? x)%float then infinity
                               else 1%float)
                     (fun x n => Nat.iter n (PrimFloat.mul x) 1%float))
                  codata2010 radiant wavelength
                  (PyFloat 0.1%float) (PyFloat 1%float))
               0%float) = true.
Proof.
  refine (proj1 (@derivative_nonfinite_beyond_limit
                   (fun x => if (709.7 <=? x)%float then infinity
                             else 1%float)
                   (fun x n => Nat.iter n (PrimFloat.mul x) 1%float)
                   codata2010 radiant wavelength 0.1%float 1%float
                   _ _ _ _)).
  - intros x H. rewrite H. reflexivity.
  - vm_compute. reflexivity.
  - vm_compute. reflexivity.
  - vm_compute. reflexivity.
Defined.

(* ================================================================== *)
(** * The roots of [an] *)

Section AnRoots.
Local Open Scope R_scope.

Lemma an_R (x : R) (n : Z) : an x n = IZR n * (1 - exp (- x)) - x.
Proof. reflexivity. Qed.

(** [exp] lies above its tangent at any point. *)
Lemma exp_tangent (u v : R) : exp (- u) * (1 - (v - u)) <= exp (- v).
Proof.
  replace (- v) with (- u + - (v - u)) by ring. rewrite exp_plus.
  apply Rmult_le_compat_l; [left; apply exp_pos|].
  destruct (Req_dec (v - u) 0) as [E|E].
  - rewrite E, Ropp_0, exp_0. lra.
  - left. replace (1 - (v - u)) with (1 + - (v - u)) by ring.
    apply exp_ineq1. lra.
Qed.

Lemma exp_fourth_power (x : R) : 0 < x -> (1 + x / 4) ^ 4 < exp x.
Proof.
  intros Hx.
  replace x with (x / 4 + x / 4 + (x / 4 + x / 4)) at 2 by field.
  rewrite !exp_plus.
  assert (H : 1 + x / 4 < exp (x / 4)) by (apply exp_ineq1; lra).
  assert (P : 0 < 1 + x / 4) by lra.
  set (u := 1 + x / 4) in *. set (e := exp (x / 4)) in *.
  assert (H2 : u * u < e * e) by nra.
  assert (P2 : 0 < u * u) by nra.
  simpl. nra.
Qed.

Variable n : Z.
Hypothesis Hn : 0 < IZR n.

(** Past a point where [exp] exceeds [n], [an] decreases strictly. *)
Lemma an_decreasing (a x y : R) :
  IZR n < exp a -> a <= x -> x < y -> an y n < an x n.
Proof.
  intros Ha Hax Hxy. rewrite !an_R.
  set (h := y - x). assert (Hh : 0 < h) by (unfold h; lra).
  assert (Ey : exp (- y) = exp (- x) * exp (- h))
    by (rewrite <- exp_plus; f_equal; unfold h; ring).
  rewrite Ey.
  assert (H1 : 1 - h < exp (- h))
    by (replace (1 - h) with (1 + - h) by ring; apply exp_ineq1; lra).
  assert (H2 : exp (- h) < 1).
  { rewrite <- exp_0. apply exp_increasing. lra. }
  assert (H3 : exp a <= exp x).
  { destruct Hax as [Hax| ->]; [left; now apply exp_increasing | right; reflexivity]. }
  assert (H4 : exp x * exp (- x) = 1)
    by (rewrite <- exp_plus, Rplus_opp_r; apply exp_0).
  assert (Px : 0 < exp (- x)) by apply exp_pos.
  assert (H5 : IZR n * exp (- x) < 1).
  { rewrite <- H4. apply Rmult_lt_compat_r; lra. }
  assert (H6 : IZR n * exp (- x) * (1 - exp (- h)) < 1 - exp (- h)).
  { rewrite <- (Rmult_1_l (1 - exp (- h))) at 2.
    apply Rmult_lt_compat_r; lra. }
  assert (K : IZR n * exp (- x) * (1 - exp (- h)) < h) by lra.
  assert (Hy : y = x + h) by (unfold h; ring).
  clearbody h. subst y. nra.
Qed.

(** Between zero and a point where [an] is positive, [an] is positive. *)
Lemma an_positive_below (a x : R) :
  0 < an a n -> 0 < x -> x <= a -> 0 < an x n.
Proof.
  intros Ha Hx Hxa. rewrite an_R in *.
  pose proof (exp_tangent x 0) as T0. rewrite Ropp_0, exp_0 in T0.
  pose proof (exp_tangent x a) as Ta.
  assert (Px : 0 < exp (- x)) by apply exp_pos.
  assert (C : a * exp (- x) <= (a - x) + x * exp (- a)) by nra.
  assert (Q : x * (IZR n * (1 - exp (- a)) - a)
              <= a * (IZR n * (1 - exp (- x)) - x)) by nra.
  assert (P : 0 < x * (IZR n * (1 - exp (- a)) - a))
    by (apply Rmult_lt_0_compat; lra).
  assert (Pa : 0 < a) by lra.
  nra.
Qed.

Lemma an_continuous : continuity (fun x => - an x n).
Proof.
  assert (E : (fun x => - an x n)
              = (- (mult_real_fct (IZR n) (fct_cte 1 - comp exp (- id))
                    - id))%F) by reflexivity.
  rewrite E.
  apply continuity_opp, continuity_minus.
  - apply continuity_scal, continuity_minus.
    + apply continuity_const. intros x y. reflexivity.
    + apply continuity_comp.
      * apply continuity_opp, derivable_continuous, derivable_id.
      * apply derivable_continuous, derivable_exp.
  - apply derivable_continuous, derivable_id.
Qed.

(** A bracket with [exp a > n], [an a > 0] and [an b < 0] holds the one
    positive root. *)
Lemma an_unique_root (a b : R) :
  0 < a -> a < b -> IZR n < exp a -> 0 < an a n -> an b n < 0 ->
  exists x, a < x < b /\ an x n = 0 /\
            forall y, 0 < y -> an y n = 0 -> y = x.
Proof.
  intros Pa Hab He Ha Hb.
  destruct (IVT (fun x => - an x n) a b an_continuous Hab) as (x & Hx & E);
    [lra | lra |].
  assert (E0 : an x n = 0) by lra.
  assert (Hxa : a < x).
  { destruct (proj1 Hx) as [H| <-]; [exact H | lra]. }
  assert (Hxb : x < b).
  { destruct (proj2 Hx) as [H| ->]; [exact H | lra]. }
  exists x. repeat split; try assumption.
  intros y Py Ey.
  destruct (Rle_or_lt y a) as [Hya|Hya].
  { pose proof (an_positive_below Ha Py Hya). lra. }
  destruct (Rtotal_order y x) as [H|[H|H]]; [| exact H |].
  - pose proof (@an_decreasing a y x He (Rlt_le _ _ Hya) H). lra.
  - pose proof (@an_decreasing a x y He (Rlt_le _ _ Hxa) H). lra.
Qed.


End AnRoots.

(** The facts about [exp] that make each bracket of [__init__] a valid
    one. *)
Lemma root_searches_valid :
  Forall (fun '(n, a, b) =>
            (0 < IZR n /\ 0 < a /\ a < b /\ IZR n < exp a /\
             0 < an a n /\ an b n < 0)%R)
         root_searches.
Proof.
  assert (B : forall x k : R, (0 < x -> k <= (1 + x / 4) ^ 4 -> k < exp x)%R).
  { intros x k Hx Hk. pose proof (exp_fourth_power Hx). lra. }
  assert (I : forall x k : R, (0 < k -> k < exp x -> exp (- x) < / k)%R).
  { intros x k Pk Hk. rewrite exp_Ropp.
    apply Rinv_lt_contravar; [|exact Hk].
    apply Rmult_lt_0_compat; [exact Pk | apply exp_pos]. }
  assert (P : forall x : R, (0 < exp (- x))%R) by (intros; apply exp_pos).
  unfold root_searches. repeat constructor; rewrite ?an_R; try lra.
  - apply B; lra.
  - pose proof (I 1 2 ltac:(lra) ltac:(apply B; lra))%R. lra.
  - pose proof (P 2%R). lra.
  - apply B; lra.
  - pose proof (I 2 3 ltac:(lra) ltac:(apply B; lra))%R. lra.
  - pose proof (P 3%R). lra.
  - apply B; lra.
  - pose proof (I (7 / 2) 8 ltac:(lra) ltac:(apply B; lra))%R. lra.
  - pose proof (P 4%R). lra.
  - apply B; lra.
  - pose proof (I (9 / 2) 10 ltac:(lra) ltac:(apply B; lra))%R. lra.
  - pose proof (P 5%R). lra.
Qed.

(** X15.  Each of the four brackets handed to [brentq] has [an] positive at its
    lower end and negative at its upper end, and holds exactly one root of
    [an], which is the only positive root. *)
Theorem an_brackets_isolate_roots :
  Forall (fun '(n, a, b) =>
            (0 < an a n)%R /\ (an b n < 0)%R /\
            exists x : R, (a < x < b)%R /\ an x n = 0%R /\
                          forall y : R, (0 < y)%R -> an y n = 0%R -> y = x)
         root_searches.
Proof.
  pose proof root_searches_valid as V.
  eapply Forall_impl; [|exact V].
  intros [[n a] b] (Hn & Pa & Hab & He & Ha & Hb).
  repeat split; try assumption.
  now apply an_unique_root.
Qed.

(* ================================================================== *)
(** * The Wien constants locate the stationary point of the spectrum *)

Section Stationary.
Local Open Scope R_scope.




End Stationary.

Section WienPeak.
Variable sc : SciConst R.
Hypothesis Hsc : positive_constants sc.
Local Open Scope R_scope.






End WienPeak.





(* ================================================================== *)
(** * Inputs given as columns *)




(* ================================================================== *)
(** * When an evaluator raises *)



(* ================================================================== *)
(** * Integer inputs *)

(** C1, at the failing input.  [planckqf(30000000000000, 300)]: the
    frequency is held in an int64 array, its square wraps around to a
    negative integer, and the function returns a negative number, where the
    exponent is below 709.7 and the formula is positive. *)
Theorem planckqf_integer_wraps :
  outcome (planckqf codata2010_R (PyInt 30000000000000) (PyInt 300))
  = inr (PyFloat
           (c1nf (pconst codata2010_R) * IZR (-4393134537329082368)
            / (exp (c2f (pconst codata2010_R) * 30000000000000 / 300) - 1))%R)
  /\
  (c2f (pconst codata2010_R) * 30000000000000 / 300 < 7097 / 10)%R /\
  (c1nf (pconst codata2010_R) * IZR (-4393134537329082368)
   / (exp (c2f (pconst codata2010_R) * 30000000000000 / 300) - 1) < 0)%R /\
  (0 < spec_eta (pconst codata2010_R) photon_rate frequency
                30000000000000 300)%R.
Proof.
  assert (Hx : (0 < c2f (pconst codata2010_R) * 30000000000000 / 300
                < 7097 / 10)%R).
  { cbn [c2f pconst PlanckConstants_init fdiv codata2010_R const_h const_k
         Arith_R].
    replace (662606957 / 10 ^ 42 / (13806488 / 10 ^ 30))%R
      with (662606957 / (13806488 * 10 ^ 12))%R by (field; lra).
    lra. }
  assert (He : (0 < exp (c2f (pconst codata2010_R) * 30000000000000 / 300)
                    - 1)%R).
  { pose proof (exp_ineq1 _ (Rgt_not_eq _ _ (proj1 Hx))). lra. }
  assert (Hc : (0 < c1nf (pconst codata2010_R))%R)
    by apply (c1_positive codata2010_R_positive).
  repeat split.
  - unfold planckqf. cbn [np_array meshgrid size data length repeat concat
      flat_map app ravel fst snd floats vpow map as_float npow of_int64
      Arith_R Nat.add Nat.mul Z.of_nat Pos.of_succ_nat Pos.succ].
    change (wrap64 (30000000000000 ^ 2)) with (-4393134537329082368)%Z.
    unfold smul, adiv, alts, where_, explimit, np_exp, asubs;
      cbn [map map2 fmul fdiv fsub fltb fexp fromZ lit_explimit Arith_R bind].
    rewrite (Rltb_true (proj2 Hx)).
    reflexivity.
  - apply Hx.
  - set (c := c1nf (pconst codata2010_R)) in *.
    set (D := (exp (c2f (pconst codata2010_R) * 30000000000000 / 300)
               - 1)%R) in *.
    assert (Hi : (0 < / D)%R) by now apply Rinv_0_lt_compat.
    assert (Ha : (c * -4393134537329082368 < 0)%R) by lra.
    unfold Rdiv. clearbody c D. nra.
  - apply (spec_eta_pos codata2010_R_positive); lra.
Qed.

(* ================================================================== *)
(** * [dplnckel] overflows before [exp] does *)

Section DplnckelOverflow.
Variable exp_f : float -> float.
Variable pow_f : float -> nat -> float.
Let AFl : Arith float := Arith_float exp_f pow_f.
Local Existing Instance AFl.
Variable sc : SciConst float.

(** The numerator [c1el * xx * exp(xx)] of [dplnckel] is computed first; once
    it is out of range the quotient is a NaN or an infinity. *)
Lemma dplnckel_at_overflow (s t : float) :
  big (-24) (c1el (pconst sc)) ->
  big (-43) (exP_l sc s t) ->
  big 935 (exp_f (exP_l sc s t)) ->
  nonfinite (dplnckel_at sc s t) = true.
Proof.
  intros Bc Bx Be. unfold dplnckel_at.
  cbn [fdiv fmul fexp AFl Arith_float Arith_float_with].
  apply nonfinite_div_l, nonfinite_div_l.
  apply big_top with (k := (-24 + -43 + 52 + 935 + 52)%Z); [|lia].
  apply mul_big; [apply mul_big; auto; lia | exact Be | lia | lia | lia].
Qed.

End DplnckelOverflow.

(** C3, at the failing input.  On binary64, for a call of [dplnckel] on two
    numbers: when [c1el] is at least [2^28] (it is about 3.74e8), the
    exponent is at least 512 and its exponential at least [2^987] (so from
    an exponent of about 684.2 on), the function returns a NaN or an
    infinity.  At 0.07 micrometres and 300 K the exponent is 685.13, below
    709.7. *)
Theorem dplnckel_overflows_below_limit :
  forall (exp_f : float -> float) (pow_f : float -> nat -> float)
         (sc : SciConst float) (s t : float),
    let AFl := Arith_float exp_f pow_f in
    (0x1p28 <=? c1el (@pconst float AFl sc))%float = true ->
    (512 <=? @exP_l float AFl sc s t)%float = true ->
    (0x1p987 <=? exp_f (@exP_l float AFl sc s t))%float = true ->
    exists v : float,
      outcome (@dplnckel float AFl sc (PyFloat s) (PyFloat t))
      = inr (PyFloat v) /\
      nonfinite v = true.
Proof.
  intros exp_f pow_f sc s t AFl Hc Hx He.
  exists (dplnckel_at sc s t). split.
  - rewrite (proj1 (dplnckel_pointwise sc _ _)).
    now rewrite (@pointwise_single_single float AFl _ (PyFloat s)
                   (PyFloat t) s t) by reflexivity.
  - apply dplnckel_at_overflow.
    + eapply leb_big; [|exact Hc]; reflexivity.
    + eapply leb_big; [|exact Hx]; reflexivity.
    + eapply leb_big; [|exact He]; reflexivity.
Qed.

Lemma dplnckel_overflows_below_limit_witness :
  (exists v : float,
      outcome (@dplnckel float
                 (Arith_float
                    (fun x => if (512 <=? x)%float then 0x1p987%float
                              else 1%float)
                    (fun x n => Nat.iter n (PrimFloat.mul x) 1%float))
                 codata2010 (PyFloat 0.07%float) (PyFloat 300%float))
      = inr (PyFloat v) /\
      nonfinite v = true) /\
  (@exP_l float
     (Arith_float
        (fun x => if (512 <=? x)%float then 0x1p987%float else 1%float)
        (fun x n => Nat.iter n (PrimFloat.mul x) 1%float))
     codata2010 0.07 300 <? 709.7)%float = true.
Proof.
  split.
  - refine (@dplnckel_overflows_below_limit
              (fun x => if (512 <=? x)%float then 0x1p987%float
                        else 1%float)
              (fun x n => Nat.iter n (PrimFloat.mul x) 1%float)
              codata2010 0.07%float 300%float _ _ _).
    + vm_compute. reflexivity.
    + vm_compute. reflexivity.
    + vm_compute. reflexivity.
  - vm_compute. reflexivity.
Defined.
